(** * pastecat: the paste store of paste.go, embedded and verified

    paste.go holds three generations of the server.  The newest keeps the
    pastes in a [FileStore] (an index [cache], a quota [stats], files under
    a two-level directory tree); the one before keeps a process-wide map
    [pastes.m] and retires pastes with [Id.EndLife].  Both are embedded
    here: the store in the first part, the process-wide map in the module
    [Legacy].  The oldest generation (compressed pastes under
    three-level paths) has no index; its names and paths are embedded in
    the module [Oldest].

    Go values are modelled as follows.
    - [byte] is [Byte.byte]; a Go [string] is a [string] (a sequence of
      8-bit characters); a [[]byte] is a [list byte].
    - [Id], a [[rawIdSize]byte] array, is a record of four bytes.
    - a Go [map] is a [gmap]; the files on disk are a [gmap] from path to
      content.
    - [time.Time] is an integer count of nanoseconds, [time.Duration] a
      64-bit count of nanoseconds.
    - what the operating system and the random source answer is an input
      of each operation (its environment record). *)

From Stdlib Require Import ZArith NArith Lia Ascii String List.
From Stdlib Require Import Strings.Byte.
From stdpp Require Import base option countable gmap strings pretty list fin_maps.

Local Open Scope string_scope.
Local Open Scope Z_scope.

(** Concatenation of strings computes on its first argument. *)
#[local] Arguments String.append !s1 s2 : simpl nomatch.

(* ===================================================================== *)
(** ** Errors *)
(* ===================================================================== *)

(** Error numbers of the operating system, as far as the store meets them. *)
Inductive errno : Type :=
  | EEXIST | ENOENT | EACCES | EIO | ENOSPC.

(** The [error] values of paste.go. *)
Inductive error : Type :=
  | ErrPasteNotFound
  | ErrReachedMax
  | ErrNoUnusedIDFound
  | ErrShortWrite                  (* io.ErrShortWrite *)
  | ErrInvalidId                   (* errors.New("Invalid id") *)
  | ErrInvalidDirs (p : string)    (* "... invalid number of directories at " + p *)
  | ErrIncompatibleId (p : string) (* "Found incompatible id at path " + p *)
  | ErrGaveUp                      (* "Gave up trying to find an unused random id ..." *)
  | ErrRand                        (* an error of crypto/rand *)
  | ErrOS (e : errno)              (* an *os.PathError *)
  | ErrWalk                        (* an error handed in by filepath.Walk *)
  | ErrEOF.                        (* io.EOF *)

(** A Go result pair [(v, err)]: the value when [err == nil], else the error. *)
Inductive res (A : Type) : Type :=
  | Ok (a : A)
  | Err (e : error).
Arguments Ok {A} a.
Arguments Err {A} e.

#[global] Instance errno_eq_dec : EqDecision errno.
Proof. solve_decision. Defined.
#[global] Instance error_eq_dec : EqDecision error.
Proof. solve_decision. Defined.

(* ===================================================================== *)
(** ** Constants of paste.go *)
(* ===================================================================== *)

Definition idSize : nat := 8.
Definition rawIdSize : nat := Nat.div idSize 2.
Definition randTries : nat := 10.

(* ===================================================================== *)
(** ** encoding/hex *)
(* ===================================================================== *)

Definition hextable : string := "0123456789abcdef".

(** [hextable[n]] *)
Definition hexdigit (n : N) : ascii :=
  match String.get (N.to_nat n) hextable with
  | Some c => c
  | None => "0"%char
  end.

(** The two characters [hextable[v>>4]], [hextable[v&0x0f]] of one byte. *)
Definition EncodeByte (v : byte) : string :=
  String (hexdigit (N.shiftr (Byte.to_N v) 4))
    (String (hexdigit (N.land (Byte.to_N v) 15)) EmptyString).

Fixpoint EncodeToString (src : list byte) : string :=
  match src with
  | [] => EmptyString
  | v :: rest => EncodeByte v ++ EncodeToString rest
  end.

Definition in_range (lo hi c : ascii) : bool :=
  (N.leb (N_of_ascii lo) (N_of_ascii c) && N.leb (N_of_ascii c) (N_of_ascii hi))%bool.

(** [fromHexChar]: the value of a hex digit, lower or upper case. *)
Definition fromHexChar (c : ascii) : option N :=
  if in_range "0" "9" c then Some (N_of_ascii c - N_of_ascii "0")%N
  else if in_range "a" "f" c then Some (N_of_ascii c - N_of_ascii "a" + 10)%N
  else if in_range "A" "F" c then Some (N_of_ascii c - N_of_ascii "A" + 10)%N
  else None.

(** [(a << 4) | b] as a byte. *)
Definition byte_of_nibbles (a b : N) : byte :=
  match Byte.of_N (N.lor (N.shiftl a 4) b) with
  | Some v => v
  | None => x00
  end.

(** [hex.DecodeString]; [None] is either of its errors ([ErrLength],
    [InvalidByteError]), which no caller here tells apart. *)
Fixpoint DecodeString (s : string) : option (list byte) :=
  match s with
  | EmptyString => Some []
  | String _ EmptyString => None
  | String p (String q rest) =>
      match fromHexChar p, fromHexChar q with
      | Some a, Some b =>
          match DecodeString rest with
          | Some l => Some (byte_of_nibbles a b :: l)
          | None => None
          end
      | _, _ => None
      end
  end.

(* ===================================================================== *)
(** ** strings, path, path/filepath *)
(* ===================================================================== *)

(** [s[:n]] and [s[n:]] *)
Fixpoint str_take (n : nat) (s : string) : string :=
  match n, s with
  | S n', String c r => String c (str_take n' r)
  | _, _ => EmptyString
  end.

Fixpoint str_drop (n : nat) (s : string) : string :=
  match n, s with
  | S n', String _ r => str_drop n' r
  | _, _ => s
  end.

(** [filepath.Separator] (the Unix build). *)
Definition Separator : ascii := "/"%char.

(** [strings.Split(s, string(sep))] for a separator of one character:
    the pieces between the separators, one more than there are
    separators. *)
Fixpoint Split (s : string) (sep : ascii) : list string :=
  match s with
  | EmptyString => [EmptyString]
  | String c r =>
      if Ascii.eqb c sep then EmptyString :: Split r sep
      else match Split r sep with
           | h :: t => String c h :: t
           | [] => [String c EmptyString]
           end
  end.

(** [strings.Join(elems, "/")] *)
Fixpoint join_slash (elems : list string) : string :=
  match elems with
  | [] => EmptyString
  | [e] => e
  | e :: rest => e ++ "/" ++ join_slash rest
  end.

Definition is_rooted (p : string) : bool :=
  match p with
  | String c _ => Ascii.eqb c "/"
  | EmptyString => false
  end.

(** The elements [path.Clean] keeps, newest first in [out]: empty and [.]
    elements are dropped, [..] takes back the element before it, stays
    when there is none to take back in a relative path, and is dropped at
    the root. *)
Fixpoint clean_elems (rooted : bool) (out : list string) (elems : list string)
  : list string :=
  match elems with
  | [] => rev out
  | e :: rest =>
      if String.eqb e EmptyString || String.eqb e "." then clean_elems rooted out rest
      else if String.eqb e ".." then
        match out with
        | top :: out' =>
            if String.eqb top ".." then clean_elems rooted (".." :: out) rest
            else clean_elems rooted out' rest
        | [] =>
            if rooted then clean_elems rooted [] rest
            else clean_elems rooted [".."] rest
        end
      else clean_elems rooted (e :: out) rest
  end.

(** [path.Clean] *)
Definition Clean (p : string) : string :=
  let body := join_slash (clean_elems (is_rooted p) [] (Split p "/")) in
  let out := if is_rooted p then "/" ++ body else body in
  if String.eqb out EmptyString then "." else out.

(** [path.Join]: leading empty elements are skipped, the rest is joined
    with slashes and cleaned. *)
Fixpoint Join (elem : list string) : string :=
  match elem with
  | [] => EmptyString
  | e :: rest =>
      if String.eqb e EmptyString then Join rest else Clean (join_slash elem)
  end.

(* ===================================================================== *)
(** ** Identifiers *)
(* ===================================================================== *)

(** [type Id [rawIdSize]byte] *)
Record Id : Type := mkId { id0 : byte; id1 : byte; id2 : byte; id3 : byte }.

(** [id[:]] *)
Definition Id_bytes (id : Id) : list byte := [id0 id; id1 id; id2 id; id3 id].

(** The zero value of [var id Id]. *)
Definition Id_zero : Id := mkId x00 x00 x00 x00.

(** [copy(id[:], b)]: as many bytes as both have. *)
Definition Id_copy (id : Id) (b : list byte) : Id :=
  mkId (nth 0 b (id0 id)) (nth 1 b (id1 id)) (nth 2 b (id2 id)) (nth 3 b (id3 id)).

#[global] Instance byte_eq_dec : EqDecision byte := Byte.byte_eq_dec.
#[global] Instance byte_countable : Countable byte :=
  inj_countable Byte.to_N Byte.of_N Byte.of_to_N.

#[global] Instance Id_eq_dec : EqDecision Id.
Proof. solve_decision. Defined.

Definition Id_to_tuple (id : Id) : byte * byte * byte * byte :=
  (id0 id, id1 id, id2 id, id3 id).
Definition Id_of_tuple (t : byte * byte * byte * byte) : Id :=
  let '(a, b, c, d) := t in mkId a b c d.

#[global] Instance Id_countable : Countable Id.
Proof.
  refine (inj_countable' Id_to_tuple Id_of_tuple _).
  intros []; reflexivity.
Defined.

Definition IdFromString (hexId : string) : res Id :=
  let id := Id_zero in
  if negb (Nat.eqb (String.length hexId) idSize) then Err ErrInvalidId
  else match DecodeString hexId with
       | None => Err ErrInvalidId
       | Some b =>
           if negb (Nat.eqb (List.length b) rawIdSize) then Err ErrInvalidId
           else Ok (Id_copy id b)
       end.

Definition IdFromPath (idPath : string) : res Id :=
  let parts := Split idPath Separator in
  match parts with
  | [p0; p1] => IdFromString (p0 ++ p1)
  | _ => Err (ErrInvalidDirs idPath)
  end.

(** [id.String()] *)
Definition Id_String (id : Id) : string := EncodeToString (Id_bytes id).

(** [id.Path()] *)
Definition Id_Path (id : Id) : string :=
  let hexId := Id_String id in
  Join [str_take 2 hexId; str_drop 2 hexId].

(* ===================================================================== *)
(** ** time *)
(* ===================================================================== *)

(** A [time.Time] is a count of nanoseconds since the epoch, a
    [time.Duration] a signed 64-bit count of nanoseconds. *)
Abbreviation Time := Z (only parsing).
Abbreviation Duration := Z (only parsing).

Definition minDuration : Z := - 2 ^ 63.
Definition maxDuration : Z := 2 ^ 63 - 1.
Definition Minute : Z := 60 * 1000000000.
Definition Hour : Z := 60 * Minute.

Definition Time_Add (t : Time) (d : Duration) : Time := t + d.
Definition Time_Before (t u : Time) : bool := t <? u.
Definition Time_After (t u : Time) : bool := u <? t.

(** [t.Sub(u)]: the difference, or the largest (smallest) duration when
    the difference does not fit one. *)
Definition Time_Sub (t u : Time) : Duration :=
  if maxDuration <? t - u then maxDuration
  else if t - u <? minDuration then minDuration
  else t - u.

(* ===================================================================== *)
(** ** os: the files of the data directory *)
(* ===================================================================== *)

(** The files below the data directory: path to content.  Every call takes
    the fault the operating system may answer with ([None]: no fault of
    its own; the call can still fail on the state of the disk). *)
Abbreviation disk := (gmap string (list byte)) (only parsing).

(** [os.Open(name)]: the content the descriptor reads. *)
Definition os_Open (fault : option errno) (name : string) (d : disk)
  : res (list byte) :=
  match fault with
  | Some e => Err (ErrOS e)
  | None =>
      match d !! name with
      | Some data => Ok data
      | None => Err (ErrOS ENOENT)
      end
  end.

(** [os.OpenFile(name, O_WRONLY|O_CREATE|O_EXCL, 0600)]: a new, empty file,
    refused when the name exists. *)
Definition os_OpenFile_excl (fault : option errno) (name : string) (d : disk)
  : res disk :=
  match fault with
  | Some e => Err (ErrOS e)
  | None =>
      match d !! name with
      | Some _ => Err (ErrOS EEXIST)
      | None => Ok (<[name := []]> d)
      end
  end.

(** [f.Write(data)] on the new file [name]: the system takes the first
    [wn] bytes and answers [(n, err)]. *)
Definition file_Write (wn : nat) (werr : option errno) (name : string)
    (data : list byte) (d : disk) : nat * option error * disk :=
  let written := take wn data in
  (length written, ErrOS <$> werr, <[name := written]> d).

(** [os.Remove(name)] *)
Definition os_Remove (fault : option errno) (name : string) (d : disk)
  : res disk :=
  match fault with
  | Some e => Err (ErrOS e)
  | None =>
      match d !! name with
      | Some _ => Ok (delete name d)
      | None => Err (ErrOS ENOENT)
      end
  end.

(* ===================================================================== *)
(** ** The quota tracker and the entry header *)
(* ===================================================================== *)

(** Modelled from the spec: the type [Stats] and its methods [hasSpaceFor],
    [makeSpaceFor] and [freeSpace] are used by the store but not declared
    in paste.go.  The quota state is a running total of bytes and a
    maximum fixed for the life of the process. *)
Record Stats : Type := mkStats { maxStorage : Z; storage : Z }.

(** Modelled from the spec: [hasSpaceFor(size)] tells whether admitting
    [size] more bytes keeps the running total at or below the maximum. *)
Definition hasSpaceFor (size : Z) (st : Stats) : bool :=
  storage st + size <=? maxStorage st.

(** Modelled from the spec: [reserve(size)] adds to the running total. *)
Definition makeSpaceFor (size : Z) (st : Stats) : Stats :=
  mkStats (maxStorage st) (storage st + size).

(** Modelled from the spec: [release(size)] takes from the running total.
    Releasing more than the total is a violated invariant of the program
    there, not an error a caller sees; [release_within_total] below shows
    the store never asks for it. *)
Definition freeSpace (size : Z) (st : Stats) : Stats :=
  mkStats (maxStorage st) (storage st - size).

(** Modelled from the spec: the type [Header] and [genHeader] are not
    declared in paste.go.  An entry carries its content size and its
    modification time; the derived metadata are a function of the three
    arguments, which the header keeps. *)
Record Header : Type := mkHeader { HeaderID : Id; ModTime : Time; Size : Z }.

Definition genHeader (id : Id) (modTime : Time) (size : Z) : Header :=
  mkHeader id modTime size.

(** Modelled from the spec: [IDFromString] is not declared in paste.go;
    parsing decodes a hex string of fixed length and fails on a wrong
    length or character, which is what [IdFromString] does. *)
Definition IDFromString (hexID : string) : res Id := IdFromString hexID.

(* ===================================================================== *)
(** ** sync.WaitGroup *)
(* ===================================================================== *)

(** A [sync.WaitGroup] is its counter.  A struct that holds one holds the
    counter by value: copying the struct copies the counter. *)
Abbreviation WaitGroup := Z (only parsing).

Definition WaitGroup_Add (delta : Z) (wg : WaitGroup) : WaitGroup := wg + delta.

(** [Wait] returns when the counter is zero. *)
Definition WaitGroup_Wait (wg : WaitGroup) : bool := wg =? 0.

(** What a call that may not return does. *)
Inductive outcome (A : Type) : Type :=
  | Returns (a : A)
  | Waits      (* parked in [WaitGroup.Wait] *)
  | Panics.    (* "sync: negative WaitGroup counter" *)
Arguments Returns {A} a.
Arguments Waits {A}.
Arguments Panics {A}.

(* ===================================================================== *)
(** ** FileStore *)
(* ===================================================================== *)

Record fileCache : Type := mkFileCache {
  reading : WaitGroup;
  header : Header;
  path : string
}.

Record FileStore : Type := mkFileStore {
  cache : gmap Id fileCache;
  dir : string;
  stats : Stats
}.

(** Addresses of the variables whose address a function hands out. *)
Abbreviation loc := positive (only parsing).

(** [FileContent]: the open file (the content its descriptor reads) and a
    pointer to a [WaitGroup]. *)
Record FileContent : Type := mkFileContent {
  file : list byte;
  reading_ptr : loc
}.

(** What the operations act on: the store, the files on disk, the
    [WaitGroup]s that live behind a pointer, and the deletions handed to
    [SetupPasteDeletion]. *)
Record World : Type := mkWorld {
  store : FileStore;
  files : gmap string (list byte);
  guards : gmap positive Z;
  timers : list (Id * Z)
}.

Definition set_store (s : FileStore) (w : World) : World :=
  mkWorld s (files w) (guards w) (timers w).
Definition set_files (d : disk) (w : World) : World :=
  mkWorld (store w) d (guards w) (timers w).
Definition set_guards (g : gmap positive Z) (w : World) : World :=
  mkWorld (store w) (files w) g (timers w).

(** [c.Read] and its kin read the open file. *)
Definition FileContent_ReadAll (c : FileContent) : list byte := file c.

(** [FileContent.Close]: [c.reading.Done()] takes one from the counter
    behind the pointer and panics when it falls below zero. *)
Definition FileContent_Close (close_err : option errno) (c : FileContent)
    (w : World) : outcome (option error) * World :=
  let counter := default 0 (guards w !! reading_ptr c) in
  let counter' := WaitGroup_Add (-1) counter in
  if counter' <? 0 then (Panics, w)
  else (Returns (ErrOS <$> close_err),
        set_guards (<[reading_ptr c := counter']> (guards w)) w).

(** [FileStore.Get].  [cached] is a copy of the map's entry; its address
    is handed out, so it lives at a new location, and [Add(1)] counts on
    that copy. *)
Definition Get (open_fault : option errno) (id : Id) (w : World)
  : res (FileContent * Header) * World :=
  match cache (store w) !! id with
  | None => (Err ErrPasteNotFound, w)
  | Some cached =>
      match os_Open open_fault (path cached) (files w) with
      | Err e => (Err e, w)
      | Ok f =>
          let l := fresh (dom (guards w)) in
          let cached_reading := WaitGroup_Add 1 (reading cached) in
          (Ok (mkFileContent f l, header cached),
           set_guards (<[l := cached_reading]> (guards w)) w)
      end
  end.

(** What the system and the random source answer during one [Put]. *)
Record PutEnv : Type := mkPutEnv {
  rand : nat -> option Id;      (* [rand.Read] at each try; [None]: an error *)
  now : Time;                   (* [time.Now()] *)
  open_fault : option errno;
  write_n : nat;                (* bytes the system takes in [f.Write] *)
  write_err : option errno;
  close_err : option errno
}.

Definition writeNewFile (env : PutEnv) (filename : string) (data : list byte)
    (d : disk) : option error * disk :=
  match os_OpenFile_excl (open_fault env) filename d with
  | Err e => (Some e, d)
  | Ok d1 =>
      let '(n, err, d2) := file_Write (write_n env) (write_err env) filename data d1 in
      let err :=
        match err with
        | None => if (n <? length data)%nat then Some ErrShortWrite else None
        | Some e => Some e
        end in
      let err1 := ErrOS <$> close_err env in
      let err := match err with None => err1 | Some e => Some e end in
      (err, d2)
  end.

(** The loop of [randomID] with [n] tries left, at try number [try]. *)
Fixpoint randomID_from (n try : nat) (rnd : nat -> option Id)
    (c : gmap Id fileCache) : res Id :=
  match n with
  | O => Err ErrNoUnusedIDFound
  | S n' =>
      match rnd try with
      | None => randomID_from n' (S try) rnd c
      | Some id =>
          match c !! id with
          | None => Ok id
          | Some _ => randomID_from n' (S try) rnd c
          end
      end
  end.

Definition randomID (rnd : nat -> option Id) (s : FileStore) : res Id :=
  randomID_from randTries 0 rnd (cache s).

Definition Put (env : PutEnv) (content : list byte) (w : World)
  : res Id * World :=
  let s := store w in
  let size := Z.of_nat (length content) in
  if negb (hasSpaceFor size (stats s)) then (Err ErrReachedMax, w)
  else
    match randomID (rand env) s with
    | Err e => (Err e, w)
    | Ok id =>
        let hexID := Id_String id in
        let pastePath := Join [str_take 2 hexID; str_drop 2 hexID] in
        match writeNewFile env pastePath content (files w) with
        | (Some e, d) => (Err e, set_files d w)
        | (None, d) =>
            let st := makeSpaceFor size (stats s) in
            let entry := mkFileCache 0 (genHeader id (now env) size) pastePath in
            (Ok id,
             set_files d (set_store (mkFileStore (<[id := entry]> (cache s)) (dir s) st) w))
        end
    end.

(** [FileStore.Delete].  [cached] is again a copy of the map's entry, and
    [Wait] waits on the counter of that copy. *)
Definition Delete (rm_fault : option errno) (id : Id) (w : World)
  : outcome (option error) * World :=
  let s := store w in
  match cache s !! id with
  | None => (Returns (Some ErrPasteNotFound), w)
  | Some cached =>
      let c := delete id (cache s) in
      let st := freeSpace (Size (header cached)) (stats s) in
      let w1 := set_store (mkFileStore c (dir s) st) w in
      if negb (WaitGroup_Wait (reading cached)) then (Waits, w1)
      else
        match os_Remove rm_fault (path cached) (files w1) with
        | Err e => (Returns (Some e), w1)
        | Ok d => (Returns None, set_files d w1)
        end
  end.

(** The package variables [lifeTime] and [startTime]. *)
Record Config : Type := mkConfig { lifeTime : Duration; startTime : Time }.

(** An [os.FileInfo], as far as recovery reads it. *)
Record FileInfo : Type := mkFileInfo {
  fi_IsDir : bool;
  fi_ModTime : Time;
  fi_Size : Z
}.

(** Modelled from the spec: [SetupPasteDeletion] is not declared in
    paste.go.  [scheduleDeletion(identifier, afterDuration)] arms a
    one-shot deferred deletion of the identifier; the caller goes on
    without waiting. *)
Definition SetupPasteDeletion (id : Id) (after : Duration) (w : World) : World :=
  mkWorld (store w) (files w) (guards w) (timers w ++ [(id, after)])%list.

(** [FileStore.Recover], the callback of [filepath.Walk]. *)
Definition Recover (cfg : Config) (rm_fault : option errno) (pastePath : string)
    (fileInfo : FileInfo) (err : option error) (w : World)
  : option error * World :=
  match err with
  | Some e => (Some e, w)
  | None =>
      if fi_IsDir fileInfo then (None, w)
      else
        match Split pastePath Separator with
        | [p0; p1] =>
            let hexID := p0 ++ p1 in
            match IDFromString hexID with
            | Err e => (Some e, w)
            | Ok id =>
                let modTime := fi_ModTime fileInfo in
                let deathTime := Time_Add modTime (lifeTime cfg) in
                (* if lifeTime > 0 { if deathTime.Before(startTime) { ... } } *)
                if (0 <? lifeTime cfg) && Time_Before deathTime (startTime cfg)
                then
                  match os_Remove rm_fault pastePath (files w) with
                  | Err e => (Some e, w)
                  | Ok d => (None, set_files d w)
                  end
                else
                  let size := fi_Size fileInfo in
                  let s := store w in
                  if negb (hasSpaceFor size (stats s)) then (Some ErrReachedMax, w)
                  else
                    let st := makeSpaceFor size (stats s) in
                    let lifeLeft := Time_Sub deathTime (startTime cfg) in
                    let cached := mkFileCache 0 (genHeader id modTime size) pastePath in
                    let w1 := set_store (mkFileStore (<[id := cached]> (cache s)) (dir s) st) w in
                    (None, SetupPasteDeletion id lifeLeft w1)
            end
        | _ => (Some (ErrInvalidDirs pastePath), w)
        end
  end.

(** [filepath.Walk] over the files of one directory, in its order: the
    callback on each, until one returns an error. *)
Fixpoint walk_files (cfg : Config) (entries : list (string * FileInfo))
    (w : World) : option error * World :=
  match entries with
  | [] => (None, w)
  | (p, fi) :: rest =>
      match Recover cfg None p fi None w with
      | (Some e, w') => (Some e, w')
      | (None, w') => walk_files cfg rest w'
      end
  end.

(** What [newFileStore] returns over an empty data directory: an empty
    index and nothing stored, under the configured maximum. *)
Definition newFileStore (d : string) (maxBytes : Z) : World :=
  mkWorld (mkFileStore ∅ d (mkStats maxBytes 0)) ∅ ∅ [].

(* ===================================================================== *)
(** ** Sequences of calls *)
(* ===================================================================== *)

Inductive op : Type :=
  | OpPut (env : PutEnv) (content : list byte)
  | OpGet (open_fault : option errno) (id : Id)
  | OpClose (close_err : option errno) (c : FileContent)
  | OpDelete (rm_fault : option errno) (id : Id).

(** A call and what it returned. *)
Inductive event : Type :=
  | EvPut (content : list byte) (r : res Id)
  | EvGet (id : Id) (r : res (FileContent * Header))
  | EvClose (c : FileContent) (r : outcome (option error))
  | EvDelete (id : Id) (r : outcome (option error)).

Definition step (o : op) (w : World) : event * World :=
  match o with
  | OpPut env content => let (r, w') := Put env content w in (EvPut content r, w')
  | OpGet fault id => let (r, w') := Get fault id w in (EvGet id r, w')
  | OpClose cerr c => let (r, w') := FileContent_Close cerr c w in (EvClose c r, w')
  | OpDelete fault id => let (r, w') := Delete fault id w in (EvDelete id r, w')
  end.

(** The calls of [ops] one after the other. *)
Fixpoint run (ops : list op) (w : World) : list event * World :=
  match ops with
  | [] => ([], w)
  | o :: rest =>
      let (e, w1) := step o w in
      let (es, w2) := run rest w1 in
      (e :: es, w2)
  end.

(* ===================================================================== *)
(** ** The process-wide map of the earlier server *)
(* ===================================================================== *)

Module Legacy.

Record PasteInfo : Type := mkPasteInfo {
  Path : string;
  Etag : string;
  ContentType : string;
  ModTime : Time
}.

(** The map [pastes.m], the files, the timers armed by [EndLifeAfter]
    and the goroutines started with [go id.EndLife()]. *)
Record World : Type := mkWorld {
  m : gmap Id PasteInfo;
  files : gmap string (list byte);
  timers : list (Id * Z);
  spawned : list Id
}.

(** The loop of [RandomId] with [n] tries left: an error of the random
    source ends it. *)
Fixpoint RandomId_from (n try : nat) (rnd : nat -> option Id)
    (pastes : gmap Id PasteInfo) : res Id :=
  match n with
  | O => Err ErrGaveUp
  | S n' =>
      match rnd try with
      | None => Err ErrRand
      | Some id =>
          match pastes !! id with
          | None => Ok id
          | Some _ => RandomId_from n' (S try) rnd pastes
          end
      end
  end.

Definition RandomId (rnd : nat -> option Id) (w : World) : res Id :=
  RandomId_from randTries 0 rnd (m w).

(** [id.EndLifeAfter(duration)]: a timer that will call [id.EndLife()]. *)
Definition EndLifeAfter (id : Id) (duration : Duration) (w : World) : World :=
  mkWorld (m w) (files w) (timers w ++ [(id, duration)])%list (spawned w).

(** [id.EndLife()] *)
Definition EndLife (rm_fault : option errno) (id : Id) (w : World) : World :=
  match os_Remove rm_fault (Id_Path id) (files w) with
  | Ok d => mkWorld (delete id (m w)) d (timers w) (spawned w)
  | Err _ => EndLifeAfter id (2 * Minute) w
  end.

Section WithContentType.

(** [http.DetectContentType] *)
Variable DetectContentType : list byte -> string.

(** [time.Time.Unix]: whole seconds since the epoch. *)
Definition Unix (t : Time) : Z := t / 1000000000.

Definition GenPasteInfo (id : Id) (modTime : Time) (head : list byte)
  : PasteInfo :=
  let etag := pretty (Unix modTime) ++ "-" ++ Id_String id in
  let ct := DetectContentType head in
  let ct :=
    if String.eqb ct "application/octet-stream"
    then "text-plain; charset=utf-8" else ct in
  mkPasteInfo EmptyString etag ct modTime.

(** [pasteFile.Read(read)] into a buffer of 512 zero bytes: the buffer
    afterwards, or [io.EOF] when the file has nothing to read. *)
Definition read_head (data : list byte) : res (list byte) :=
  match data with
  | [] => Err ErrEOF
  | _ => Ok (take 512 data ++ replicate (512 - length data)%nat x00)%list
  end.

(** [walkFunc], the callback of [filepath.Walk]; [now] is what
    [time.Now()] answers. *)
Definition walkFunc (cfg : Config) (now : Time) (open_fault : option errno)
    (filePath : string) (fileInfo : FileInfo) (err : option error) (w : World)
  : option error * World :=
  match err with
  | Some e => (Some e, w)
  | None =>
      if fi_IsDir fileInfo then (None, w)
      else
        match IdFromPath filePath with
        | Err _ => (Some (ErrIncompatibleId filePath), w)
        | Ok id =>
            let modTime := fi_ModTime fileInfo in
            let deathTime := Time_Add modTime (lifeTime cfg) in
            if Time_Before deathTime now
            then (None, mkWorld (m w) (files w) (timers w) (spawned w ++ [id])%list)
            else
              match os_Open open_fault filePath (files w) with
              | Err e => (Some e, w)
              | Ok data =>
                  match read_head data with
                  | Err e => (Some e, w)
                  | Ok read =>
                      let lifeLeft :=
                        if Time_After deathTime (Time_Add now (lifeTime cfg))
                        then lifeTime cfg
                        else Time_Sub deathTime now in
                      let pasteInfo := GenPasteInfo id modTime read in
                      let w1 := mkWorld (<[id := pasteInfo]> (m w)) (files w)
                                  (timers w) (spawned w) in
                      (None, EndLifeAfter id lifeLeft w1)
                  end
              end
        end
  end.

End WithContentType.

End Legacy.

(* ===================================================================== *)
(** ** Properties stated about the store *)
(* ===================================================================== *)

(** A character that is neither the separator nor a dot. *)
Definition plain_char (c : ascii) : bool :=
  negb (Ascii.eqb c "/") && negb (Ascii.eqb c ".").

Fixpoint plain (s : string) : bool :=
  match s with
  | EmptyString => true
  | String c r => plain_char c && plain r
  end.

(** What one call can do to the index and the quota: nothing, admit a
    new entry, or retire one. *)
Inductive store_step (s : FileStore) : FileStore -> Prop :=
  | store_same : store_step s s
  | store_admit (id : Id) (entry : fileCache) :
      cache s !! id = None ->
      reading entry = 0 ->
      0 <= Size (header entry) ->
      store_step s
        (mkFileStore (<[id := entry]> (cache s)) (dir s)
           (makeSpaceFor (Size (header entry)) (stats s)))
  | store_retire (id : Id) (cached : fileCache) :
      cache s !! id = Some cached ->
      store_step s
        (mkFileStore (delete id (cache s)) (dir s)
           (freeSpace (Size (header cached)) (stats s))).

(** The sizes of all entries of the index, summed. *)
Definition sum_sizes (c : gmap Id fileCache) : Z :=
  map_fold (fun _ fc acc => Size (header fc) + acc) 0 c.

(** Quota conservation: the running total is the sum of the sizes. *)
Definition quota_conserved (w : World) : Prop :=
  storage (stats (store w)) = sum_sizes (cache (store w)).

(** The file system takes a write of [n] bytes whole and without a fault. *)
Definition benign (env : PutEnv) (n : nat) : Prop :=
  open_fault env = None /\ write_err env = None /\
  (n <= write_n env)%nat /\ close_err env = None.

(** No [put] of the sequence returned [id]. *)
Definition never_issued (id : Id) (evs : list event) : Prop :=
  forall content, EvPut content (Ok id) ∉ evs.

(** [delete] was called on [id], and no later [put] returned it again. *)
Definition deleted_since (id : Id) (evs : list event) : Prop :=
  exists evs1 r evs2,
    evs = (evs1 ++ EvDelete id r :: evs2)%list /\ never_issued id evs2.

(** Whether [id] is issued and not deleted at the end of [evs], when [a]
    says so at its start. *)
Fixpoint alive (id : Id) (a : bool) (evs : list event) : bool :=
  match evs with
  | [] => a
  | EvPut _ (Ok id') :: rest =>
      alive id (if decide (id' = id) then true else a) rest
  | EvDelete id' _ :: rest =>
      alive id (if decide (id' = id) then false else a) rest
  | _ :: rest => alive id a rest
  end.

(** The identifiers the puts of a sequence returned, in order. *)
Fixpoint put_ids (evs : list event) : list Id :=
  match evs with
  | [] => []
  | EvPut _ (Ok id) :: rest => id :: put_ids rest
  | _ :: rest => put_ids rest
  end.

(** A draw that gives no unused identifier: the source failed, or the
    identifier is in the index. *)
Definition wasted {V : Type} (rnd : nat -> option Id) (c : gmap Id V)
    (try : nat) : Prop :=
  rnd try = None \/ exists id, rnd try = Some id /\ is_Some (c !! id).

(** A draw the source answered with an identifier that is in the index. *)
Definition taken {V : Type} (rnd : nat -> option Id) (c : gmap Id V)
    (try : nat) : Prop :=
  exists id, rnd try = Some id /\ is_Some (c !! id).

(** Whether the index has an entry for [id]. *)
Definition indexed (id : Id) (w : World) : bool :=
  bool_decide (is_Some (cache (store w) !! id)).

(** A sequence of puts as a sequence of calls. *)
Definition puts_only (puts : list (PutEnv * list byte)) : list op :=
  map (fun p => OpPut (fst p) (snd p)) puts.

(** Every entry of the index holds a [WaitGroup] nobody has counted on. *)
Definition guards_untouched (w : World) : Prop :=
  forall id fc, cache (store w) !! id = Some fc -> reading fc = 0.

(** [delete] hides a failed removal of the backing file from its caller:
    it still returns [nil]. *)
Definition delete_hides_removal_failure : Prop :=
  forall (w : World) (id : Id) (cached : fileCache) (fault : option errno)
         (e : error),
    cache (store w) !! id = Some cached ->
    reading cached = 0 ->
    os_Remove fault (path cached) (files w) = Err e ->
    fst (Delete fault id w) = Returns None.

(* ===================================================================== *)
(** ** Sample values *)
(* ===================================================================== *)

Definition sample_id : Id := mkId x0a xbc x00 xff.

(** "hello" *)
Definition sample_content : list byte := [x68; x65; x6c; x6c; x6f].

(** A random source that draws [sample_id], a system without faults. *)
Definition sample_env : PutEnv :=
  mkPutEnv (fun _ => Some sample_id) 1000 None 1024 None None.

Definition sample_store : World := newFileStore "data" 100.

(** The store after [sample_content] was put. *)
Definition sample_store_1 : World :=
  snd (Put sample_env sample_content sample_store).

(** ... and after a reader has opened it. *)
Definition sample_store_2 : World :=
  snd (Get None sample_id sample_store_1).

(** A data directory that holds one paste, before recovery. *)
Definition sample_disk : World :=
  mkWorld (mkFileStore ∅ "data" (mkStats 100 0))
    {[ "0a/bc00ff" := sample_content ]} ∅ [].

Definition sample_legacy : Legacy.World :=
  Legacy.mkWorld ∅ {[ "0a/bc00ff" := sample_content ]} [] [].

Definition sample_detect (head : list byte) : string :=
  "text/plain; charset=utf-8".

(** The server starts at hour 1000. *)
Definition sample_start : Time := 1000 * Hour.

(** Three pastes of five bytes under a lifetime of twelve hours: one
    thirteen hours old at the start, one eleven hours old, one an hour
    old. *)
Definition three_pastes : World :=
  mkWorld (mkFileStore ∅ "data" (mkStats 100 0))
    {[ "0a/000001" := sample_content;
       "0a/000002" := sample_content;
       "0a/000003" := sample_content ]} ∅ [].

Definition three_infos : list (string * FileInfo) :=
  [ ("0a/000001", mkFileInfo false (sample_start - 13 * Hour) 5);
    ("0a/000002", mkFileInfo false (sample_start - 11 * Hour) 5);
    ("0a/000003", mkFileInfo false (sample_start - 1 * Hour) 5) ].

(* ===================================================================== *)
(** ** strings.ToLower and the request handler of the earlier server *)
(* ===================================================================== *)

(** [strings.ToLower] on a string of ASCII characters. *)
Definition lower_char (c : ascii) : ascii :=
  if in_range "A" "Z" c then ascii_of_N (N_of_ascii c + 32) else c.

Fixpoint ToLower (s : string) : string :=
  match s with
  | EmptyString => EmptyString
  | String c r => String (lower_char c) (ToLower r)
  end.

(** A hex digit of either case. *)
Definition is_hex_char (c : ascii) : bool :=
  match fromHexChar c with Some _ => true | None => false end.

Fixpoint all_chars (f : ascii -> bool) (s : string) : bool :=
  match s with
  | EmptyString => true
  | String c r => f c && all_chars f r
  end.

(** [path.Split(p)]: the directory up to and with the last slash, and the
    file after it. *)
Fixpoint path_Split (p : string) : string * string :=
  match p with
  | EmptyString => (EmptyString, EmptyString)
  | String c r =>
      let (d, f) := path_Split r in
      if Ascii.eqb c "/" then
        (String c d, f)
      else
        match d with
        | EmptyString => (EmptyString, String c f)
        | _ => (String c d, f)
        end
  end.

Module LegacyHttp.

(** GET and POST error messages. *)
Definition invalidId : string := "Invalid paste id.".
Definition pasteNotFound : string := "Paste doesn't exist.".
Definition unknownError : string := "Something went terribly wrong.".
Definition missingForm : string := "Paste could not be found inside the posted form.".

Definition StatusNotModified : Z := 304.
Definition StatusBadRequest : Z := 400.
Definition StatusNotFound : Z := 404.
Definition StatusInternalServerError : Z := 500.

(** The [*http.Request], as far as [handler] reads it.  [parse_err] is
    what [r.ParseMultipartForm] answers (the text of its error), and
    [Form_paste] is [r.Form["paste"]]. *)
Record Request : Type := mkRequest {
  Method : string;
  URLPath : string;
  If_None_Match : string;
  parse_err : option string;
  Form_paste : option (list (list byte))
}.

(** What [handler] writes to the [http.ResponseWriter]. *)
Inductive Response : Type :=
  | IndexPage                      (* indexTemplate.Execute *)
  | FormPage                       (* formTemplate.Execute *)
  | HttpError (msg : string) (code : Z)          (* http.Error *)
  | NotModified                    (* w.WriteHeader(http.StatusNotModified) *)
  | ServeContent (etag ctype : string) (modTime : Time) (content : list byte)
  | Created (line : string)        (* fmt.Fprintf(w, "%s/%s\n", siteUrl, id) *)
  | NoReply                        (* another method: nothing is written *)
  | Panic.                         (* an index or slice out of range *)

(** What the system and the random source answer during one request. *)
Record Env : Type := mkEnv {
  rand : nat -> option Id;
  mkdir_fault : option errno;      (* [os.MkdirAll] *)
  now : Time;
  open_fault : option errno;       (* [os.Open] or [os.OpenFile] *)
  write_n : nat;                   (* bytes the system takes in [io.WriteString] *)
  write_err : option errno
}.

Section WithSite.

Variable DetectContentType : list byte -> string.
Variable siteUrl : string.
Variable lifeTime : Duration.

(** The [case "GET"] of [handler]. *)
Definition handleGet (env : Env) (r : Request) (w : Legacy.World)
  : Response * Legacy.World :=
  if String.eqb (URLPath r) "/" then (IndexPage, w)
  else if String.eqb (URLPath r) "/form" then (FormPage, w)
  else
    match URLPath r with
    | EmptyString => (Panic, w)            (* r.URL.Path[1:] *)
    | String _ tail =>
        match IdFromString tail with
        | Err _ => (HttpError invalidId StatusBadRequest, w)
        | Ok id =>
            match Legacy.m w !! id with
            | None => (HttpError pasteNotFound StatusNotFound, w)
            | Some pasteInfo =>
                let inm := If_None_Match r in
                if negb (String.eqb inm EmptyString)
                   && (String.eqb (Legacy.Etag pasteInfo) inm || String.eqb inm "*")
                then (NotModified, w)
                else
                  match os_Open (open_fault env) (Id_Path id) (Legacy.files w) with
                  | Err _ => (HttpError unknownError StatusInternalServerError, w)
                  | Ok pasteFile =>
                      (ServeContent (Legacy.Etag pasteInfo)
                         (Legacy.ContentType pasteInfo)
                         (Legacy.ModTime pasteInfo) pasteFile, w)
                  end
            end
        end
    end.

(** The [case "POST"] of [handler]. *)
Definition handlePost (env : Env) (r : Request) (w : Legacy.World)
  : Response * Legacy.World :=
  match parse_err r with
  | Some msg => (HttpError msg StatusBadRequest, w)
  | None =>
      match Form_paste r with
      | None => (HttpError missingForm StatusBadRequest, w)
      | Some [] => (Panic, w)              (* vs[0] *)
      | Some (content :: _) =>
          if (0 <? length content)%nat then
            match Legacy.RandomId (rand env) w with
            | Err _ => (HttpError unknownError StatusInternalServerError, w)
            | Ok id =>
                let pastePath := Id_Path id in
                let (dir, _) := path_Split pastePath in
                match mkdir_fault env with
                | Some _ => (HttpError unknownError StatusInternalServerError, w)
                | None =>
                    let w1 := Legacy.EndLifeAfter id lifeTime w in
                    let modTime := now env in
                    match os_OpenFile_excl (open_fault env) pastePath (Legacy.files w1) with
                    | Err _ => (HttpError unknownError StatusInternalServerError, w1)
                    | Ok d1 =>
                        let '(written, err, d2) :=
                          file_Write (write_n env) (write_err env) pastePath content d1 in
                        let w2 := Legacy.mkWorld (Legacy.m w1) d2 (Legacy.timers w1)
                                    (Legacy.spawned w1) in
                        match err with
                        | Some _ => (HttpError unknownError StatusInternalServerError, w2)
                        | None =>
                            let pasteInfo :=
                              Legacy.GenPasteInfo DetectContentType id modTime content in
                            (Created (siteUrl ++ "/" ++ Id_String id
                                        ++ String (ascii_of_nat 10) EmptyString),
                             Legacy.mkWorld (<[id := pasteInfo]> (Legacy.m w2))
                               (Legacy.files w2) (Legacy.timers w2) (Legacy.spawned w2))
                        end
                    end
                end
            end
          else (HttpError missingForm StatusBadRequest, w)
      end
  end.

(** [handler] *)
Definition handler (env : Env) (r : Request) (w : Legacy.World)
  : Response * Legacy.World :=
  if String.eqb (Method r) "GET" then handleGet env r w
  else if String.eqb (Method r) "POST" then handlePost env r w
  else (NoReply, w).

(** What happens to the earlier server: a request, or a timer that fires
    and calls [id.EndLife()]. *)
Inductive action : Type :=
  | Serve (env : Env) (r : Request)
  | Fire (rm_fault : option errno) (id : Id).

Definition act (a : action) (w : Legacy.World) : Legacy.World :=
  match a with
  | Serve env r => snd (handler env r w)
  | Fire fault id => Legacy.EndLife fault id w
  end.

Definition acts (l : list action) (w : Legacy.World) : Legacy.World :=
  fold_left (fun w a => act a w) l w.

End WithSite.

(** A GET request for [p] without conditions, a POST of one paste. *)
Definition get_request (p : string) : Request :=
  mkRequest "GET" p EmptyString None None.
Definition post_request (content : list byte) : Request :=
  mkRequest "POST" "/" EmptyString None (Some [content]).

(** The index names no missing file. *)
Definition index_backed (w : Legacy.World) : Prop :=
  forall id info, Legacy.m w !! id = Some info ->
    is_Some (Legacy.files w !! Id_Path id).

End LegacyHttp.

(* ===================================================================== *)
(** ** The first server: random names of letters and digits *)
(* ===================================================================== *)

Module Oldest.

Definition idSize : nat := 8.
Definition chars : string := "abcdefghijklmnopqrstuvwxyz0123456789".

(** [chars[n]] *)
Definition char_at (n : Z) : ascii :=
  match String.get (Z.to_nat n) chars with
  | Some c => c
  | None => "a"%char
  end.

Definition is_alnum (c : ascii) : bool :=
  in_range "a" "z" c || in_range "A" "Z" c || in_range "0" "9" c.

(** [validId.MatchString], for the pattern [^[a-zA-Z0-9]{8}$]. *)
Definition validId (id : string) : bool :=
  Nat.eqb (String.length id) idSize && all_chars is_alnum id.

(** [pathId]: [None] when a slice is out of range. *)
Definition pathId (id : string) : option string :=
  if (String.length id <? 4)%nat then None
  else Some (Join [str_take 2 id; str_take 2 (str_drop 2 id); str_drop 4 id]).

(** The inner loop of [randomId], with [i] rounds and [need] characters
    to go: the characters so far, and how many are still missing. *)
Fixpoint randomId_inner (i : nat) (r : Z) (need : nat) (s : string)
  : string * nat :=
  match i, need with
  | S i', S need' =>
      let randbyte := Z.land r 255 mod Z.of_nat (String.length chars) in
      let s' := s ++ String (char_at randbyte) EmptyString in
      match need' with
      | O => (s', O)
      | _ => randomId_inner i' (Z.shiftr r 8) need' s'
      end
  | _, _ => (s, need)
  end.

(** The outer loop: one [rand.Int63()] a round. *)
Fixpoint randomId_outer (fuel draw : nat) (int63 : nat -> Z) (need : nat)
    (s : string) : option string :=
  match fuel with
  | O => None
  | S fuel' =>
      let (s', need') := randomId_inner 8 (int63 draw) need s in
      match need' with
      | O => Some s'
      | _ => randomId_outer fuel' (S draw) int63 need' s'
      end
  end.

(** [randomId]; [int63] is what [rand.Int63()] answers call after call. *)
Definition randomId (int63 : nat -> Z) : option string :=
  randomId_outer idSize 0 int63 idSize EmptyString.

End Oldest.

(* ===================================================================== *)
(** ** Properties stated about the rest of the code *)
(* ===================================================================== *)

(** Every entry of the index sits under its identifier's path, carries
    its identifier, and has its file on disk, as long as its size says. *)
Definition entries_backed (w : World) : Prop :=
  forall id fc, cache (store w) !! id = Some fc ->
    path fc = Id_Path id
    /\ HeaderID (header fc) = id
    /\ exists data, files w !! path fc = Some data
                    /\ Size (header fc) = Z.of_nat (length data).

(** The hex digits of an identifier with a separator after the first [k]. *)
Definition split_at (k : nat) (id : Id) : string :=
  str_take k (Id_String id) ++ "/" ++ str_drop k (Id_String id).


(** The file is past its death time at the start, under a lifetime that
    is in force. *)
Definition expired (cfg : Config) (fi : FileInfo) : bool :=
  (0 <? lifeTime cfg)
  && Time_Before (Time_Add (fi_ModTime fi) (lifeTime cfg)) (startTime cfg).

(** The name of [n] characters that one 63-bit draw [r] spells, a byte
    of [r] a character, lowest byte first. *)
Fixpoint name_of_draw (n : nat) (r : Z) : string :=
  match n with
  | O => EmptyString
  | S n' =>
      String (Oldest.char_at (Z.land r 255 mod 36)) (name_of_draw n' (Z.shiftr r 8))
  end.

(* ===================================================================== *)
(** * Theorems *)
(* ===================================================================== *)

(* --------------------------------------------------------------------- *)
(** ** Hex strings and paths *)
(* --------------------------------------------------------------------- *)

Lemma hexdigit_plain (n : N) : plain_char (hexdigit n) = true.
Proof.
  unfold hexdigit. generalize (N.to_nat n) as k. intros k.
  do 17 (destruct k as [|k]; [reflexivity|]). reflexivity.
Qed.

Lemma EncodeByte_plain (v : byte) : plain (EncodeByte v) = true.
Proof. unfold EncodeByte. simpl. by rewrite !hexdigit_plain. Qed.

Lemma plain_app (a b : string) : plain (a ++ b) = plain a && plain b.
Proof. induction a as [|c a IH]; simpl; [done|]. by rewrite IH, andb_assoc. Qed.

Lemma EncodeToString_plain (l : list byte) : plain (EncodeToString l) = true.
Proof.
  induction l as [|v l IH]; [done|]. cbn [EncodeToString].
  by rewrite plain_app, EncodeByte_plain, IH.
Qed.

Lemma EncodeToString_length (l : list byte) :
  String.length (EncodeToString l) = (2 * List.length l)%nat.
Proof.
  induction l as [|v l IH]; [done|].
  cbn [EncodeToString]. unfold EncodeByte. cbn [String.append String.length].
  rewrite IH. simpl. lia.
Qed.

Lemma DecodeByte (v : byte) (s : string) :
  DecodeString (EncodeByte v ++ s) =
  match DecodeString s with Some l => Some (v :: l) | None => None end.
Proof. destruct v; reflexivity. Qed.

Lemma DecodeString_EncodeToString (l : list byte) :
  DecodeString (EncodeToString l) = Some l.
Proof.
  induction l as [|v l IH]; [done|].
  cbn [EncodeToString]. by rewrite DecodeByte, IH.
Qed.

Lemma plain_char_sep (c : ascii) : plain_char c = true -> Ascii.eqb c "/" = false.
Proof. unfold plain_char. destruct (Ascii.eqb c "/"); [done|done]. Qed.

Lemma Split_plain (s : string) : plain s = true -> Split s "/" = [s].
Proof.
  induction s as [|c s IH]; simpl; [done|].
  intros [Hc Hs]%andb_prop. rewrite (plain_char_sep c Hc), (IH Hs). done.
Qed.

Lemma Split_plain_app (a b : string) :
  plain a = true -> Split (a ++ String "/" b) "/" = a :: Split b "/".
Proof.
  induction a as [|c a IH]; simpl; [done|].
  intros [Hc Ha]%andb_prop. rewrite (plain_char_sep c Hc), (IH Ha). done.
Qed.

(** A non-empty plain string is a real path element: not empty, not [.],
    not [..]. *)
Lemma plain_element (c : ascii) (s : string) :
  plain (String c s) = true ->
  String.eqb (String c s) EmptyString || String.eqb (String c s) "." = false
  /\ String.eqb (String c s) ".." = false.
Proof.
  simpl. intros [Hc _]%andb_prop. unfold plain_char in Hc.
  apply andb_prop in Hc as [_ Hdot]. apply negb_true_iff in Hdot.
  by rewrite Hdot.
Qed.

Lemma Join_plain (c1 c2 : ascii) (a b : string) :
  plain (String c1 a) = true -> plain (String c2 b) = true ->
  Join [String c1 a; String c2 b] = String c1 a ++ "/" ++ String c2 b.
Proof.
  intros Ha Hb.
  assert (Hsep : Ascii.eqb c1 "/" = false).
  { simpl in Ha. apply andb_prop in Ha as [Hc _]. by apply plain_char_sep. }
  destruct (plain_element _ _ Ha) as [Ha1 Ha2].
  destruct (plain_element _ _ Hb) as [Hb1 Hb2].
  assert (Hsplit : Split (String c1 a ++ "/" ++ String c2 b) "/"
            = [String c1 a; String c2 b]).
  { change (String c1 a ++ "/" ++ String c2 b)
      with (String c1 a ++ String "/" (String c2 b)).
    by rewrite (Split_plain_app _ _ Ha), (Split_plain _ Hb). }
  assert (Hroot : is_rooted (String c1 a ++ "/" ++ String c2 b) = false)
    by (simpl; by rewrite Hsep).
  cbn [Join String.eqb join_slash]. unfold Clean. cbv zeta.
  rewrite Hroot, Hsplit.
  cbn [clean_elems]. rewrite Ha1, Ha2. cbn [clean_elems].
  rewrite Hb1, Hb2. cbn [clean_elems rev app join_slash].
  reflexivity.
Qed.

(** C10. [Id.Path] places an identifier two levels deep, the directory the
    hex of its first byte and the file name the hex of the other three,
    and [IdFromPath] reads the identifier back from that path. *)
Theorem Id_Path_two_levels_invertible (id : Id) :
  Id_Path id
    = EncodeToString [id0 id] ++ "/" ++ EncodeToString [id1 id; id2 id; id3 id]
  /\ Split (Id_Path id) Separator
    = [EncodeToString [id0 id]; EncodeToString [id1 id; id2 id; id3 id]]
  /\ IdFromPath (Id_Path id) = Ok id.
Proof.
  destruct id as [a b c d].
  assert (Hdir : plain (EncodeToString [a]) = true) by apply EncodeToString_plain.
  assert (Hfile : plain (EncodeToString [b; c; d]) = true)
    by apply EncodeToString_plain.
  assert (Hpath : Id_Path (mkId a b c d)
            = EncodeToString [a] ++ "/" ++ EncodeToString [b; c; d]).
  { unfold Id_Path, Id_String, Id_bytes. cbn [id0 id1 id2 id3].
    cbn [EncodeToString EncodeByte String.append str_take str_drop] in *.
    by apply Join_plain. }
  assert (Hsplit : Split (Id_Path (mkId a b c d)) Separator
            = [EncodeToString [a]; EncodeToString [b; c; d]]).
  { rewrite Hpath. unfold Separator.
    change (EncodeToString [a] ++ "/" ++ EncodeToString [b; c; d])
      with (EncodeToString [a] ++ String "/" (EncodeToString [b; c; d])).
    by rewrite (Split_plain_app _ _ Hdir), (Split_plain _ Hfile). }
  split; [exact Hpath|]. split; [exact Hsplit|].
  unfold IdFromPath. rewrite Hsplit.
  change (EncodeToString [a] ++ EncodeToString [b; c; d])
    with (EncodeToString [a; b; c; d]).
  unfold IdFromString.
  rewrite EncodeToString_length, DecodeString_EncodeToString. reflexivity.
Qed.

(* --------------------------------------------------------------------- *)
(** ** Writing and reading back *)
(* --------------------------------------------------------------------- *)

Lemma take_whole {A : Type} (n : nat) (l : list A) :
  ~ (length (take n l) < length l)%nat -> take n l = l.
Proof.
  intros H. rewrite length_take in H. apply take_ge. lia.
Qed.

(** A write that reports no error has created the file and nothing else,
    with exactly the data. *)
Lemma writeNewFile_ok (env : PutEnv) (filename : string) (data : list byte)
    (d d' : gmap string (list byte)) :
  writeNewFile env filename data d = (None, d') ->
  d !! filename = None /\ d' = <[filename := data]> d.
Proof.
  unfold writeNewFile, os_OpenFile_excl, file_Write.
  destruct (open_fault env); [intros [=]|].
  destruct (d !! filename) eqn:Hd; [intros [=]|].
  destruct (write_err env); cbn [fmap option_fmap option_map]; [intros [=]|].
  destruct (Nat.ltb_spec (length (take (write_n env) data)) (length data)) as [Hlt|Hge];
    [intros [=]|].
  destruct (close_err env); cbn [fmap option_fmap option_map]; intros [= <-].
  split; [done|].
  rewrite take_whole by lia. apply insert_insert_eq.
Qed.

(** With a benign system the write succeeds on a free name. *)
Lemma writeNewFile_benign (env : PutEnv) (filename : string) (data : list byte)
    (d : gmap string (list byte)) :
  benign env (length data) -> d !! filename = None ->
  writeNewFile env filename data d = (None, <[filename := data]> d).
Proof.
  intros (Ho & Hw & Hn & Hc) Hd.
  unfold writeNewFile, os_OpenFile_excl, file_Write.
  rewrite Ho, Hd, Hw, Hc. cbn [fmap option_fmap option_map].
  rewrite take_ge by lia.
  rewrite Nat.ltb_irrefl. by rewrite insert_insert_eq.
Qed.

(** A write leaves every other file as it was. *)
Lemma writeNewFile_other (env : PutEnv) (filename other : string)
    (data : list byte) (d d' : gmap string (list byte)) (e : option error) :
  writeNewFile env filename data d = (e, d') -> other <> filename ->
  d' !! other = d !! other.
Proof.
  unfold writeNewFile, os_OpenFile_excl, file_Write. intros H Hne.
  destruct (open_fault env); [by inversion H|].
  destruct (d !! filename); [by inversion H|].
  inversion H; subst. by rewrite !lookup_insert_ne.
Qed.

(** What a successful [Put] has done. *)
Lemma Put_ok (env : PutEnv) (content : list byte) (w w' : World) (id : Id) :
  Put env content w = (Ok id, w') ->
  let size := Z.of_nat (length content) in
  hasSpaceFor size (stats (store w)) = true
  /\ randomID (rand env) (store w) = Ok id
  /\ files w !! Id_Path id = None
  /\ w' = mkWorld
            (mkFileStore
               (<[id := mkFileCache 0 (genHeader id (now env) size) (Id_Path id)]>
                  (cache (store w)))
               (dir (store w))
               (makeSpaceFor size (stats (store w))))
            (<[Id_Path id := content]> (files w))
            (guards w) (timers w).
Proof.
  unfold Put. cbv zeta.
  destruct (hasSpaceFor _ _) eqn:Hspace; cbn [negb]; [|intros [=]].
  destruct (randomID _ _) as [id'|e] eqn:Hid; [|intros [=]].
  fold (Id_Path id').
  destruct (writeNewFile _ _ _ _) as [[e|] d] eqn:Hw; [intros [=]|].
  intros [= -> <-].
  apply writeNewFile_ok in Hw as [Hfree ->]. done.
Qed.

(** A [Put] that fails leaves the index, the quota, the guards and the
    timers alone. *)
Lemma Put_err (env : PutEnv) (content : list byte) (w w' : World) (e : error) :
  Put env content w = (Err e, w') ->
  store w' = store w /\ guards w' = guards w /\ timers w' = timers w.
Proof.
  unfold Put. cbv zeta.
  destruct (hasSpaceFor _ _); cbn [negb]; [|by intros [= _ <-]].
  destruct (randomID _ _) as [id'|e'] eqn:Hid; [|by intros [= _ <-]].
  destruct (writeNewFile _ _ _ _) as [[e'|] d] eqn:Hw; [|intros [=]].
  by intros [= _ <-].
Qed.

(** What a successful [Get] has read. *)
Lemma Get_ok (fault : option errno) (id : Id) (w w2 : World)
    (c : FileContent) (h : Header) :
  Get fault id w = (Ok (c, h), w2) ->
  exists cached,
    cache (store w) !! id = Some cached
    /\ files w !! path cached = Some (file c)
    /\ h = header cached
    /\ reading_ptr c = fresh (dom (guards w))
    /\ w2 = set_guards (<[reading_ptr c := reading cached + 1]> (guards w)) w.
Proof.
  unfold Get, os_Open.
  destruct (cache (store w) !! id) as [cached|]; [|intros [=]].
  destruct fault; [intros [=]|].
  destruct (files w !! path cached) as [data|] eqn:Hf; [|intros [=]].
  intros [= <- <- <-]. exists cached. done.
Qed.

(** [Get] succeeds on an indexed identifier whose file the system opens. *)
Lemma Get_present (id : Id) (w : World) (cached : fileCache) (data : list byte) :
  cache (store w) !! id = Some cached ->
  files w !! path cached = Some data ->
  Get None id w =
    (Ok (mkFileContent data (fresh (dom (guards w))), header cached),
     set_guards (<[fresh (dom (guards w)) := reading cached + 1]> (guards w)) w).
Proof. intros Hc Hf. unfold Get, os_Open. by rewrite Hc, Hf. Qed.

(** C1. A successful [put] followed by [get] of the identifier it returned
    yields the bytes that were put: [get] succeeds when the system opens
    the file, and whenever it succeeds its handle reads the input. *)
Theorem put_get_roundtrip (env : PutEnv) (content : list byte)
    (w w1 : World) (id : Id) :
  Put env content w = (Ok id, w1) ->
  (exists c h w2,
      Get None id w1 = (Ok (c, h), w2)
      /\ FileContent_ReadAll c = content
      /\ Size h = Z.of_nat (length content))
  /\ (forall fault c h w2,
        Get fault id w1 = (Ok (c, h), w2) -> FileContent_ReadAll c = content)
  /\ storage (stats (store w)) + Z.of_nat (length content)
       <= maxStorage (stats (store w)).
Proof.
  intros HPut. apply Put_ok in HPut as (Hspace & _ & _ & ->). cbv zeta in *.
  split; [|split].
  - eexists _, _, _. split.
    + eapply Get_present; cbn [store cache files].
      * apply lookup_insert_eq.
      * cbn [path]. apply lookup_insert_eq.
    + done.
  - intros fault c h w2 (cached & Hc & Hf & _)%Get_ok.
    cbn [store cache files] in Hc, Hf.
    rewrite lookup_insert_eq in Hc. injection Hc as <-.
    cbn [path] in Hf. rewrite lookup_insert_eq in Hf.
    unfold FileContent_ReadAll. congruence.
  - unfold hasSpaceFor in Hspace. lia.
Qed.

(* --------------------------------------------------------------------- *)
(** ** The capacity boundary *)
(* --------------------------------------------------------------------- *)

(** [Put] refuses with [ErrReachedMax] exactly when the quota has no space,
    and then changes nothing. *)
Lemma Put_ReachedMax (env : PutEnv) (content : list byte) (w : World) :
  hasSpaceFor (Z.of_nat (length content)) (stats (store w)) = false ->
  Put env content w = (Err ErrReachedMax, w).
Proof. intros H. unfold Put. cbv zeta. by rewrite H. Qed.

Lemma Put_not_ReachedMax (env : PutEnv) (content : list byte) (w : World) :
  hasSpaceFor (Z.of_nat (length content)) (stats (store w)) = true ->
  fst (Put env content w) <> Err ErrReachedMax.
Proof.
  intros H. unfold Put. cbv zeta. rewrite H. cbn [negb].
  unfold randomID.
  destruct (randomID_from _ _ _ _) as [id|e] eqn:Hid.
  - destruct (writeNewFile _ _ _ _) as [[e|] d] eqn:Hw; [|done].
    cbn [fst]. intros [= ->].
    unfold writeNewFile, os_OpenFile_excl, file_Write in Hw.
    destruct (open_fault env); [by inversion Hw|].
    destruct (files w !! _); [by inversion Hw|].
    destruct (write_err env); cbn [fmap option_fmap option_map] in Hw;
      [by inversion Hw|].
    destruct (_ <? _)%nat; [by inversion Hw|].
    destruct (close_err env); cbn [fmap option_fmap option_map] in Hw;
      by inversion Hw.
  - cbn [fst]. intros [= ->].
    clear -Hid. revert Hid. generalize 0%nat as t.
    induction randTries as [|n IH]; intros t; cbn [randomID_from]; [done|].
    destruct (rand env t) as [id|]; [|by apply IH].
    destruct (cache (store w) !! id); [by apply IH|done].
Qed.

(** With a benign system, an unused identifier drawn and its path free on
    disk, [Put] succeeds. *)
Lemma Put_succeeds (env : PutEnv) (content : list byte) (w : World) (id : Id) :
  hasSpaceFor (Z.of_nat (length content)) (stats (store w)) = true ->
  randomID (rand env) (store w) = Ok id ->
  files w !! Id_Path id = None ->
  benign env (length content) ->
  exists w', Put env content w = (Ok id, w').
Proof.
  intros Hs Hid Hfree Hb. unfold Put. cbv zeta.
  rewrite Hs, Hid. cbn [negb]. fold (Id_Path id).
  rewrite (writeNewFile_benign _ _ _ _ Hb Hfree). eauto.
Qed.

(** C3. With a maximum of 100 bytes and nothing stored, a put of 100 bytes
    passes the quota and succeeds (given an unused identifier from the
    random source and a file system that takes the write), and a put of
    101 bytes fails with [ErrReachedMax] and leaves index, quota and disk
    as they were. *)
Theorem capacity_boundary (w : World) :
  maxStorage (stats (store w)) = 100 ->
  storage (stats (store w)) = 0 ->
  (forall env content,
      length content = 101%nat -> Put env content w = (Err ErrReachedMax, w))
  /\ (forall env content,
      length content = 100%nat -> fst (Put env content w) <> Err ErrReachedMax)
  /\ (forall env content id,
      length content = 100%nat ->
      randomID (rand env) (store w) = Ok id ->
      files w !! Id_Path id = None ->
      benign env 100 ->
      exists w',
        Put env content w = (Ok id, w')
        /\ files w' !! Id_Path id = Some content
        /\ is_Some (cache (store w') !! id)
        /\ storage (stats (store w')) = 100).
Proof.
  intros Hmax Hzero. split; [|split].
  - intros env content Hlen. apply Put_ReachedMax.
    unfold hasSpaceFor. rewrite Hmax, Hzero, Hlen. reflexivity.
  - intros env content Hlen. apply Put_not_ReachedMax.
    unfold hasSpaceFor. rewrite Hmax, Hzero, Hlen. reflexivity.
  - intros env content id Hlen Hid Hfree Hb.
    destruct (Put_succeeds env content w id) as [w' HPut]; try done.
    + unfold hasSpaceFor. rewrite Hmax, Hzero, Hlen. reflexivity.
    + by rewrite Hlen.
    + exists w'. split; [done|].
      apply Put_ok in HPut as (_ & _ & _ & ->). cbn [files store cache stats].
      rewrite !lookup_insert_eq. split; [done|]. split; [by eexists|].
      cbn. lia.
Qed.

(* --------------------------------------------------------------------- *)
(** ** Drawing identifiers *)
(* --------------------------------------------------------------------- *)

Lemma randomID_from_spec (n t : nat) (rnd : nat -> option Id)
    (c : gmap Id fileCache) :
  match randomID_from n t rnd c with
  | Ok id =>
      c !! id = None
      /\ exists k, (t <= k < t + n)%nat /\ rnd k = Some id
                   /\ forall j, (t <= j < k)%nat -> wasted rnd c j
  | Err e =>
      e = ErrNoUnusedIDFound
      /\ forall j, (t <= j < t + n)%nat -> wasted rnd c j
  end.
Proof.
  revert t. induction n as [|n IH]; intros t; cbn [randomID_from].
  - split; [done|]. intros j Hj. lia.
  - assert (Hstep : wasted rnd c t ->
      match randomID_from n (S t) rnd c with
      | Ok id =>
          c !! id = None
          /\ exists k, (t <= k < t + S n)%nat /\ rnd k = Some id
                       /\ forall j, (t <= j < k)%nat -> wasted rnd c j
      | Err e =>
          e = ErrNoUnusedIDFound
          /\ forall j, (t <= j < t + S n)%nat -> wasted rnd c j
      end).
    { intros Hw. specialize (IH (S t)).
      destruct (randomID_from n (S t) rnd c) as [id|e].
      - destruct IH as (Hfree & k & Hk & Hrk & Hbefore). split; [done|].
        exists k. split; [lia|]. split; [done|].
        intros j Hj. destruct (decide (j = t)) as [->|]; [done|].
        apply Hbefore. lia.
      - destruct IH as (-> & Hall). split; [done|].
        intros j Hj. destruct (decide (j = t)) as [->|]; [done|].
        apply Hall. lia. }
    destruct (rnd t) as [id|] eqn:Hr.
    + destruct (c !! id) eqn:Hc.
      * apply Hstep. right. exists id. by rewrite Hc.
      * split; [done|]. exists t. split; [lia|]. split; [done|].
        intros j Hj. lia.
    + apply Hstep. by left.
Qed.

Lemma randomID_from_ext (n t : nat) (rnd rnd' : nat -> option Id)
    (c : gmap Id fileCache) :
  (forall j, (t <= j < t + n)%nat -> rnd j = rnd' j) ->
  randomID_from n t rnd c = randomID_from n t rnd' c.
Proof.
  revert t. induction n as [|n IH]; intros t Hext; cbn [randomID_from]; [done|].
  rewrite <- (Hext t) by lia.
  rewrite (IH (S t)) by (intros j Hj; apply Hext; lia). done.
Qed.

Lemma RandomId_from_spec (n t : nat) (rnd : nat -> option Id)
    (c : gmap Id Legacy.PasteInfo) :
  match Legacy.RandomId_from n t rnd c with
  | Ok id =>
      c !! id = None
      /\ exists k, (t <= k < t + n)%nat /\ rnd k = Some id
                   /\ forall j, (t <= j < k)%nat -> wasted rnd c j
  | Err e =>
      (e = ErrGaveUp /\ forall j, (t <= j < t + n)%nat ->
                          exists id, rnd j = Some id /\ is_Some (c !! id))
      \/ (e = ErrRand /\ exists k, (t <= k < t + n)%nat /\ rnd k = None)
  end.
Proof.
  revert t. induction n as [|n IH]; intros t; cbn [Legacy.RandomId_from].
  - left. split; [done|]. intros j Hj. lia.
  - destruct (rnd t) as [id|] eqn:Hr.
    + destruct (c !! id) eqn:Hc.
      * specialize (IH (S t)).
        destruct (Legacy.RandomId_from n (S t) rnd c) as [id'|e].
        -- destruct IH as (Hfree & k & Hk & Hrk & Hbefore). split; [done|].
           exists k. split; [lia|]. split; [done|].
           intros j Hj. destruct (decide (j = t)) as [->|].
           ++ right. exists id. by rewrite Hc.
           ++ apply Hbefore. lia.
        -- destruct IH as [(-> & Hall)|(-> & k & Hk & Hrk)].
           ++ left. split; [done|]. intros j Hj.
              destruct (decide (j = t)) as [->|].
              ** exists id. by rewrite Hc.
              ** apply Hall. lia.
           ++ right. split; [done|]. exists k. split; [lia|done].
      * split; [done|]. exists t. split; [lia|]. split; [done|].
        intros j Hj. lia.
    + right. split; [done|]. exists t. split; [lia|done].
Qed.

(** The identifiers a sequence of puts returns are unused at its start,
    indexed at its end, and pairwise distinct. *)
Lemma puts_distinct (puts : list (PutEnv * list byte)) (w : World) :
  let evs := fst (run (puts_only puts) w) in
  let w' := snd (run (puts_only puts) w) in
  NoDup (put_ids evs)
  /\ (forall id, id ∈ put_ids evs ->
        cache (store w) !! id = None /\ is_Some (cache (store w') !! id))
  /\ (forall id, is_Some (cache (store w) !! id) ->
        is_Some (cache (store w') !! id)).
Proof.
  revert w. induction puts as [|[env content] puts IH]; intros w; cbn zeta.
  - cbn. split; [constructor|]. split; [|done]. intros id Hin. inversion Hin.
  - cbn [puts_only map run step fst snd]. fold (puts_only puts).
    destruct (Put env content w) as [r w1] eqn:HPut.
    specialize (IH w1). cbn zeta in IH.
    destruct (run (puts_only puts) w1) as [es w2] eqn:Hrun.
    cbn [fst snd] in *. destruct IH as (Hnodup & Hnew & Hkeep).
    destruct r as [id|e].
    + apply Put_ok in HPut as (_ & Hid & _ & ->).
      pose proof (randomID_from_spec randTries 0 (rand env) (cache (store w))) as Hspec.
      unfold randomID in Hid. rewrite Hid in Hspec. destruct Hspec as [Hfree _].
      cbn [put_ids store cache] in *.
      assert (Hidx : is_Some (cache (store w2) !! id)).
      { apply Hkeep. rewrite lookup_insert_eq. by eexists. }
      split; [|split].
      * constructor; [|done]. intros Hin. apply Hnew in Hin as [Hnone _].
        by rewrite lookup_insert_eq in Hnone.
      * intros id' [->|Hin]%elem_of_cons; [done|].
        apply Hnew in Hin as [Hnone Hsome]. split; [|done].
        destruct (decide (id = id')) as [->|Hne].
        -- by rewrite lookup_insert_eq in Hnone.
        -- by rewrite lookup_insert_ne in Hnone.
      * intros id' Hsome. apply Hkeep.
        destruct (decide (id = id')) as [->|Hne].
        -- rewrite lookup_insert_eq. by eexists.
        -- by rewrite lookup_insert_ne.
    + apply Put_err in HPut as (Hstore & _ & _). rewrite Hstore in *.
      cbn [put_ids]. done.
Qed.

(** [RandomId] stops at the first draw that is not an indexed
    identifier: it returns that draw, or the error of the random source
    when the source failed there. *)
Lemma RandomId_from_exact (n t : nat) (rnd : nat -> option Id)
    (c : gmap Id Legacy.PasteInfo) :
  match Legacy.RandomId_from n t rnd c with
  | Ok id =>
      c !! id = None
      /\ exists k, (t <= k < t + n)%nat /\ rnd k = Some id
                   /\ forall j, (t <= j < k)%nat -> taken rnd c j
  | Err e =>
      (e = ErrGaveUp /\ forall j, (t <= j < t + n)%nat -> taken rnd c j)
      \/ (e = ErrRand
          /\ exists k, (t <= k < t + n)%nat /\ rnd k = None
                       /\ forall j, (t <= j < k)%nat -> taken rnd c j)
  end.
Proof.
  revert t. induction n as [|n IH]; intros t; cbn [Legacy.RandomId_from].
  - left. split; [done|]. intros j Hj. lia.
  - destruct (rnd t) as [id|] eqn:Hr.
    + destruct (c !! id) eqn:Hc.
      * assert (Ht : taken rnd c t) by (exists id; by rewrite Hc).
        specialize (IH (S t)).
        destruct (Legacy.RandomId_from n (S t) rnd c) as [id'|e].
        -- destruct IH as (Hfree & k & Hk & Hrk & Hbefore). split; [done|].
           exists k. split; [lia|]. split; [done|].
           intros j Hj. destruct (decide (j = t)) as [->|]; [done|].
           apply Hbefore. lia.
        -- destruct IH as [(-> & Hall)|(-> & k & Hk & Hrk & Hbefore)].
           ++ left. split; [done|]. intros j Hj.
              destruct (decide (j = t)) as [->|]; [done|]. apply Hall. lia.
           ++ right. split; [done|]. exists k. split; [lia|]. split; [done|].
              intros j Hj. destruct (decide (j = t)) as [->|]; [done|].
              apply Hbefore. lia.
      * split; [done|]. exists t. split; [lia|]. split; [done|].
        intros j Hj. lia.
    + right. split; [done|]. exists t. split; [lia|]. split; [done|].
      intros j Hj. lia.
Qed.

(** The first draw that is not an indexed identifier is one draw. *)
Lemma first_not_taken {V : Type} (rnd : nat -> option Id) (c : gmap Id V)
    (k k' : nat) :
  (forall j, (j < k)%nat -> taken rnd c j) -> ~ taken rnd c k ->
  (forall j, (j < k')%nat -> taken rnd c j) -> ~ taken rnd c k' ->
  k = k'.
Proof.
  intros Hk Hnk Hk' Hnk'.
  destruct (Nat.lt_trichotomy k k') as [Hlt|[->|Hgt]]; [|done|].
  - by destruct Hnk; apply Hk'.
  - by destruct Hnk'; apply Hk.
Qed.

Lemma unused_not_taken {V : Type} (rnd : nat -> option Id) (c : gmap Id V)
    (k : nat) (id : Id) :
  rnd k = Some id -> c !! id = None -> ~ taken rnd c k.
Proof.
  intros Hr Hc (id' & Hr' & Hin). rewrite Hr in Hr'. injection Hr' as <-.
  rewrite Hc in Hin. by destruct Hin.
Qed.

Lemma failed_not_taken {V : Type} (rnd : nat -> option Id) (c : gmap Id V)
    (k : nat) :
  rnd k = None -> ~ taken rnd c k.
Proof. intros Hr (id' & Hr' & _). congruence. Qed.

(** What [RandomId] returns, from the draws. *)
Lemma RandomId_cases (rnd : nat -> option Id) (w : Legacy.World) :
  (exists id k, Legacy.RandomId rnd w = Ok id
      /\ Legacy.m w !! id = None /\ (k < randTries)%nat /\ rnd k = Some id
      /\ (forall j, (j < k)%nat -> taken rnd (Legacy.m w) j))
  \/ (Legacy.RandomId rnd w = Err ErrGaveUp
      /\ forall j, (j < randTries)%nat -> taken rnd (Legacy.m w) j)
  \/ (exists k, Legacy.RandomId rnd w = Err ErrRand
      /\ (k < randTries)%nat /\ rnd k = None
      /\ (forall j, (j < k)%nat -> taken rnd (Legacy.m w) j)).
Proof.
  pose proof (RandomId_from_exact randTries 0 rnd (Legacy.m w)) as Hspec.
  unfold Legacy.RandomId.
  destruct (Legacy.RandomId_from randTries 0 rnd (Legacy.m w)) as [id|e].
  - destruct Hspec as (Hfree & k & Hk & Hrk & Hbefore). left.
    exists id, k. repeat split; [done|lia|done|].
    intros j Hj. apply Hbefore. lia.
  - destruct Hspec as [(-> & Hall)|(-> & k & Hk & Hrk & Hbefore)].
    + right. left. split; [done|]. intros j Hj. apply Hall. lia.
    + right. right. exists k. repeat split; [lia|done|].
      intros j Hj. apply Hbefore. lia.
Qed.

(** C9, as stated, fails on [RandomId].  When every read of the random
    source fails, no unused identifier is found within the bound, and
    [RandomId] fails with the error of the source, not with the gave-up
    error.  When only the first read fails, it returns that error at
    once, although every later draw would give an identifier that is not
    in the index; [randomID] on the same draws goes on and returns that
    identifier. *)
Lemma RandomId_stops_at_source_error :
  let failing := fun _ : nat => @None Id in
  let rnd := fun try => match try with O => None | S _ => Some sample_id end in
  Legacy.RandomId failing sample_legacy = Err ErrRand
  /\ Legacy.RandomId failing sample_legacy <> Err ErrGaveUp
  /\ randomID failing (store sample_store) = Err ErrNoUnusedIDFound
  /\ Legacy.m sample_legacy !! sample_id = None
  /\ Legacy.RandomId rnd sample_legacy = Err ErrRand
  /\ Legacy.RandomId rnd sample_legacy <> Err ErrGaveUp
  /\ randomID rnd (store sample_store) = Ok sample_id.
Proof. vm_compute. repeat split; done. Qed.

(** C9, amended.  Drawing an identifier takes at most [randTries] tries,
    each checked against the index.  [randomID] returns the first draw
    that is an identifier not in the index, a failed read of the random
    source being a wasted try like a draw that is in the index; it fails,
    with the exhausted-identifiers error, exactly when all [randTries]
    draws are wasted; no later draw matters.  The earlier [RandomId]
    returns an identifier exactly when it is the first draw that is not an
    indexed identifier; it fails with the gave-up error exactly when all
    [randTries] draws are indexed identifiers, and with the error of the
    random source exactly when the first draw that is not an indexed
    identifier is a failed read; it fails in no other way.  Hence the
    identifiers that the puts of a sequence return are pairwise
    distinct. *)
Theorem identifier_generation :
  (forall rnd s id,
      randomID rnd s = Ok id ->
      cache s !! id = None
      /\ exists try, (try < randTries)%nat /\ rnd try = Some id
                     /\ forall j, (j < try)%nat -> wasted rnd (cache s) j)
  /\ (forall rnd s e,
      randomID rnd s = Err e <->
      e = ErrNoUnusedIDFound
      /\ forall try, (try < randTries)%nat -> wasted rnd (cache s) try)
  /\ (forall rnd rnd' s,
      (forall try, (try < randTries)%nat -> rnd try = rnd' try) ->
      randomID rnd s = randomID rnd' s)
  /\ (forall rnd w id,
      Legacy.RandomId rnd w = Ok id <->
      Legacy.m w !! id = None
      /\ exists try, (try < randTries)%nat /\ rnd try = Some id
                     /\ forall j, (j < try)%nat -> taken rnd (Legacy.m w) j)
  /\ (forall rnd w,
      Legacy.RandomId rnd w = Err ErrGaveUp <->
      forall try, (try < randTries)%nat -> taken rnd (Legacy.m w) try)
  /\ (forall rnd w,
      Legacy.RandomId rnd w = Err ErrRand <->
      exists try, (try < randTries)%nat /\ rnd try = None
                  /\ forall j, (j < try)%nat -> taken rnd (Legacy.m w) j)
  /\ (forall rnd w e,
      Legacy.RandomId rnd w = Err e -> e = ErrGaveUp \/ e = ErrRand)
  /\ (forall puts w, NoDup (put_ids (fst (run (puts_only puts) w)))).
Proof.
  split; [|split; [|split; [|split; [|split; [|split; [|split]]]]]].
  - intros rnd s id Hid.
    pose proof (randomID_from_spec randTries 0 rnd (cache s)) as Hspec.
    unfold randomID in Hid. rewrite Hid in Hspec.
    destruct Hspec as (Hfree & k & Hk & Hrk & Hbefore). split; [done|].
    exists k. split; [lia|]. split; [done|]. intros j Hj. apply Hbefore. lia.
  - intros rnd s e.
    pose proof (randomID_from_spec randTries 0 rnd (cache s)) as Hspec.
    unfold randomID. split.
    + intros Hid. rewrite Hid in Hspec. destruct Hspec as [-> Hall].
      split; [done|]. intros try Htry. apply Hall. lia.
    + intros [-> Hall].
      destruct (randomID_from randTries 0 rnd (cache s)) as [id|e].
      * destruct Hspec as (Hfree & k & Hk & Hrk & _).
        destruct (Hall k) as [Hnone|(id' & Hsome & Hin)]; [lia| |].
        -- congruence.
        -- rewrite Hrk in Hsome. injection Hsome as <-.
           rewrite Hfree in Hin. by destruct Hin.
      * by destruct Hspec as [-> _].
  - intros rnd rnd' s Hext. unfold randomID.
    apply randomID_from_ext. intros j Hj. apply Hext. lia.
  - intros rnd w id.
    destruct (RandomId_cases rnd w)
      as [(id' & k & -> & Hfree & Hk & Hrk & Hbefore)
         |[(-> & Hall)|(k & -> & Hk & Hrk & Hbefore)]].
    + split.
      * intros [= <-]. split; [done|]. by exists k.
      * intros (Hfree' & k' & Hk' & Hrk' & Hbefore').
        assert (k = k') as <-.
        { eapply first_not_taken; eauto using unused_not_taken. }
        congruence.
    + split; [intros [=]|].
      intros (Hfree' & k' & Hk' & Hrk' & _).
      by destruct (unused_not_taken rnd (Legacy.m w) k' id Hrk' Hfree'); apply Hall.
    + split; [intros [=]|].
      intros (Hfree' & k' & Hk' & Hrk' & Hbefore').
      assert (k = k') as <-.
      { eapply first_not_taken;
          eauto using unused_not_taken, failed_not_taken. }
      congruence.
  - intros rnd w.
    destruct (RandomId_cases rnd w)
      as [(id' & k & -> & Hfree & Hk & Hrk & Hbefore)
         |[(-> & Hall)|(k & -> & Hk & Hrk & Hbefore)]].
    + split; [intros [=]|]. intros Hall.
      by destruct (unused_not_taken rnd (Legacy.m w) k id' Hrk Hfree); apply Hall.
    + done.
    + split; [intros [=]|]. intros Hall.
      by destruct (failed_not_taken rnd (Legacy.m w) k Hrk); apply Hall.
  - intros rnd w.
    destruct (RandomId_cases rnd w)
      as [(id' & k & -> & Hfree & Hk & Hrk & Hbefore)
         |[(-> & Hall)|(k & -> & Hk & Hrk & Hbefore)]].
    + split; [intros [=]|].
      intros (k' & Hk' & Hrk' & Hbefore').
      assert (k = k') as <-.
      { eapply first_not_taken;
          eauto using unused_not_taken, failed_not_taken. }
      congruence.
    + split; [intros [=]|].
      intros (k' & Hk' & Hrk' & _).
      by destruct (failed_not_taken rnd (Legacy.m w) k' Hrk'); apply Hall.
    + split; [intros _; by exists k|done].
  - intros rnd w e.
    destruct (RandomId_cases rnd w)
      as [(id' & k & -> & _)|[(-> & _)|(k & -> & _)]].
    + intros [=].
    + intros [= <-]. by left.
    + intros [= <-]. by right.
  - intros puts w. apply (puts_distinct puts w).
Qed.

(* --------------------------------------------------------------------- *)
(** ** Sequences of calls and what they preserve *)
(* --------------------------------------------------------------------- *)

(** What [Delete] does to an identifier of the index. *)
Lemma Delete_present (fault : option errno) (id : Id) (w : World)
    (cached : fileCache) :
  cache (store w) !! id = Some cached ->
  exists r w',
    Delete fault id w = (r, w')
    /\ store w' = mkFileStore (delete id (cache (store w))) (dir (store w))
                    (freeSpace (Size (header cached)) (stats (store w)))
    /\ guards w' = guards w /\ timers w' = timers w
    /\ (r = Waits <-> reading cached <> 0)
    /\ (r = Returns None ->
        files w !! path cached <> None /\ files w' = delete (path cached) (files w))
    /\ (r <> Returns None -> files w' = files w).
Proof.
  intros Hc. unfold Delete. cbv zeta. rewrite Hc. unfold WaitGroup_Wait.
  destruct (Z.eqb_spec (reading cached) 0) as [Hz|Hnz]; cbn [negb].
  - unfold os_Remove. cbn [files set_store].
    destruct fault as [e|]; [|destruct (files w !! path cached) eqn:Hf];
      (eexists _, _; split; [done|]);
      repeat split; first [done | congruence | by intros [=] ].
  - eexists _, _. split; [done|].
    repeat split; first [done | congruence | by intros [=] ].
Qed.

Lemma Delete_absent (fault : option errno) (id : Id) (w : World) :
  cache (store w) !! id = None ->
  Delete fault id w = (Returns (Some ErrPasteNotFound), w).
Proof. intros Hc. unfold Delete. cbv zeta. by rewrite Hc. Qed.

Lemma Get_absent (fault : option errno) (id : Id) (w : World) :
  cache (store w) !! id = None ->
  Get fault id w = (Err ErrPasteNotFound, w).
Proof. intros Hc. unfold Get. by rewrite Hc. Qed.

(** Reading and closing leave the store alone. *)
Lemma Get_store (fault : option errno) (id : Id) (w : World) :
  store (snd (Get fault id w)) = store w.
Proof.
  unfold Get. destruct (cache (store w) !! id); [|done].
  by destruct (os_Open _ _ _).
Qed.

Lemma Close_store (cerr : option errno) (c : FileContent) (w : World) :
  store (snd (FileContent_Close cerr c w)) = store w.
Proof. unfold FileContent_Close. cbv zeta. by destruct (_ <? _). Qed.

(* --------------------------------------------------------------------- *)
(** ** Quota conservation *)
(* --------------------------------------------------------------------- *)

Lemma sum_sizes_insert (c : gmap Id fileCache) (id : Id) (fc : fileCache) :
  c !! id = None ->
  sum_sizes (<[id := fc]> c) = Size (header fc) + sum_sizes c.
Proof.
  intros Hfree. unfold sum_sizes.
  rewrite map_fold_insert_L; [done| |done]. intros. lia.
Qed.

Lemma sum_sizes_delete (c : gmap Id fileCache) (id : Id) (fc : fileCache) :
  c !! id = Some fc ->
  sum_sizes c = Size (header fc) + sum_sizes (delete id c).
Proof.
  intros Hin. unfold sum_sizes.
  rewrite (map_fold_delete_L _ _ id fc c); [done| |done]. intros. lia.
Qed.

(** Every call moves the store by one [store_step]. *)
Lemma step_store_step (o : op) (w : World) :
  store_step (store w) (store (snd (step o w))).
Proof.
  destruct o as [env content|f id|ce c|f id]; cbn [step].
  - destruct (Put env content w) as [[id|e] w'] eqn:HPut; cbn [snd].
    + apply Put_ok in HPut as (_ & Hid & _ & ->). cbn [store].
      pose proof (randomID_from_spec randTries 0 (rand env) (cache (store w))) as Hs.
      unfold randomID in Hid. rewrite Hid in Hs. destruct Hs as [Hfree _].
      apply (store_admit (store w) id
               (mkFileCache 0 (genHeader id (now env) (Z.of_nat (length content)))
                  (Id_Path id))); [done|done|cbn; lia].
    + apply Put_err in HPut as (-> & _). constructor.
  - pose proof (Get_store f id w) as Hs.
    destruct (Get f id w) as [r w']. cbn [snd] in *. rewrite Hs. constructor.
  - pose proof (Close_store ce c w) as Hs.
    destruct (FileContent_Close ce c w) as [r w']. cbn [snd] in *.
    rewrite Hs. constructor.
  - destruct (cache (store w) !! id) as [cached|] eqn:Hc.
    + destruct (Delete_present f id w cached Hc) as (r & w' & HD & Hs & _).
      rewrite HD. cbn [snd]. rewrite Hs. by constructor.
    + rewrite (Delete_absent f id w Hc). constructor.
Qed.

(** What every [store_step] keeps, every sequence of calls keeps. *)
Lemma run_store_invariant (P : FileStore -> Prop) :
  (forall s s', store_step s s' -> P s -> P s') ->
  forall ops w, P (store w) -> P (store (snd (run ops w))).
Proof.
  intros Hstep ops. induction ops as [|o ops IH]; intros w HP; [done|].
  cbn [run]. pose proof (Hstep _ _ (step_store_step o w) HP) as HP1.
  destruct (step o w) as [e w1]. specialize (IH w1 HP1).
  destruct (run ops w1) as [es w2]. done.
Qed.

(** A property of single entries that holds of every admitted entry
    holds of every entry of the index, step after step. *)
Lemma store_step_entries (Q : fileCache -> Prop) (s s' : FileStore) :
  store_step s s' ->
  (forall entry, reading entry = 0 -> 0 <= Size (header entry) -> Q entry) ->
  (forall id fc, cache s !! id = Some fc -> Q fc) ->
  forall id fc, cache s' !! id = Some fc -> Q fc.
Proof.
  intros Hstep Hnew Hall. destruct Hstep as [|id entry _ Hzero Hsize|id cached _];
    cbn [cache]; [done| |].
  - intros j x. destruct (decide (id = j)) as [->|Hne].
    + rewrite lookup_insert_eq. intros [= <-]. by apply Hnew.
    + rewrite lookup_insert_ne by done. apply Hall.
  - intros j x [_ Hj]%lookup_delete_Some. by apply (Hall j).
Qed.

Lemma reachable_entries (Q : fileCache -> Prop) (d : string) (maxBytes : Z)
    (ops : list op) :
  (forall entry, reading entry = 0 -> 0 <= Size (header entry) -> Q entry) ->
  forall id fc,
    cache (store (snd (run ops (newFileStore d maxBytes)))) !! id = Some fc -> Q fc.
Proof.
  intros Hnew.
  apply (run_store_invariant (fun s => forall id fc, cache s !! id = Some fc -> Q fc)).
  - intros s s' Hstep. by apply store_step_entries.
  - intros id fc. cbn. by rewrite lookup_empty.
Qed.

Lemma store_step_quota (s s' : FileStore) :
  store_step s s' ->
  storage (stats s) = sum_sizes (cache s) ->
  storage (stats s') = sum_sizes (cache s').
Proof.
  intros Hstep Hq. destruct Hstep as [|id entry Hfree _ _|id cached Hin];
    cbn [cache stats makeSpaceFor freeSpace storage].
  - done.
  - rewrite sum_sizes_insert by done. lia.
  - rewrite (sum_sizes_delete _ _ _ Hin) in Hq. lia.
Qed.

(** C2. From the empty store, after every prefix of every sequence of
    calls (puts and deletes, reads and closes too), whatever each call
    returned, the running total of the quota is the sum of the sizes of
    the entries in the index. *)
Theorem quota_conservation (d : string) (maxBytes : Z) (ops : list op) (n : nat) :
  quota_conserved (snd (run (take n ops) (newFileStore d maxBytes))).
Proof.
  unfold quota_conserved.
  apply (run_store_invariant (fun s => storage (stats s) = sum_sizes (cache s))).
  - apply store_step_quota.
  - unfold newFileStore, sum_sizes. cbn. by rewrite map_fold_empty.
Qed.

(** The sizes in the index are never negative, so the sum covers each. *)
Lemma sum_sizes_nonneg (c : gmap Id fileCache) :
  (forall j x, c !! j = Some x -> 0 <= Size (header x)) -> 0 <= sum_sizes c.
Proof.
  unfold sum_sizes.
  induction c as [|j x c Hj Hfold IH] using map_first_key_ind.
  - intros _. by rewrite map_fold_empty.
  - intros Hall. rewrite map_fold_insert_first_key by done.
    assert (0 <= Size (header x)) by (apply (Hall j); apply lookup_insert_eq).
    assert (0 <= map_fold (fun _ fc acc => Size (header fc) + acc) 0 c).
    { apply IH. intros j' x' Hj'. apply (Hall j').
      rewrite lookup_insert_ne; [done|]. intros ->. congruence. }
    lia.
Qed.

Lemma sum_sizes_covers (c : gmap Id fileCache) (id : Id) (fc : fileCache) :
  (forall j x, c !! j = Some x -> 0 <= Size (header x)) ->
  c !! id = Some fc -> Size (header fc) <= sum_sizes c.
Proof.
  intros Hpos Hin. rewrite (sum_sizes_delete c id fc Hin).
  assert (0 <= sum_sizes (delete id c)); [|lia].
  apply sum_sizes_nonneg. intros j x [_ Hj]%lookup_delete_Some.
  by apply (Hpos j).
Qed.

(** [Delete] never releases more than the running total: the total never
    falls below zero. *)
Lemma release_within_total (d : string) (maxBytes : Z) (ops : list op)
    (id : Id) (cached : fileCache) :
  let w := snd (run ops (newFileStore d maxBytes)) in
  cache (store w) !! id = Some cached ->
  0 <= Size (header cached) <= storage (stats (store w)).
Proof.
  cbv zeta. intros Hc.
  assert (Hq : storage (stats (store (snd (run ops (newFileStore d maxBytes)))))
               = sum_sizes (cache (store (snd (run ops (newFileStore d maxBytes)))))).
  { apply (run_store_invariant (fun s => storage (stats s) = sum_sizes (cache s)));
      [apply store_step_quota|].
    unfold newFileStore, sum_sizes. cbn. by rewrite map_fold_empty. }
  assert (Hpos : forall j x,
    cache (store (snd (run ops (newFileStore d maxBytes)))) !! j = Some x ->
    0 <= Size (header x)).
  { by apply (reachable_entries (fun fc => 0 <= Size (header fc))). }
  split; [by apply (Hpos id)|]. rewrite Hq. by apply (sum_sizes_covers _ id).
Qed.

(* --------------------------------------------------------------------- *)
(** ** Identifiers that are not in the index *)
(* --------------------------------------------------------------------- *)

Lemma indexed_true (id : Id) (w : World) :
  indexed id w = true <-> is_Some (cache (store w) !! id).
Proof. unfold indexed. apply bool_decide_eq_true. Qed.

Lemma indexed_false (id : Id) (w : World) :
  indexed id w = false <-> cache (store w) !! id = None.
Proof.
  unfold indexed. rewrite bool_decide_eq_false.
  rewrite eq_None_not_Some. done.
Qed.

Lemma indexed_store (id : Id) (w w' : World) :
  store w' = store w -> indexed id w' = indexed id w.
Proof. unfold indexed. by intros ->. Qed.

(** One call changes the index as its event says. *)
Lemma step_indexed (o : op) (w : World) (id : Id) :
  indexed id (snd (step o w)) = alive id (indexed id w) [fst (step o w)].
Proof.
  destruct o as [env content|f id'|ce c|f id']; cbn [step].
  - destruct (Put env content w) as [[id'|e] w'] eqn:HPut; cbn [fst snd alive].
    + apply Put_ok in HPut as (_ & _ & _ & ->).
      unfold indexed at 1. cbn [store cache].
      destruct (decide (id' = id)) as [->|Hne].
      * apply bool_decide_eq_true. rewrite lookup_insert_eq. by eexists.
      * unfold indexed. by rewrite lookup_insert_ne.
    + apply Put_err in HPut as (Hs & _). by apply indexed_store.
  - pose proof (Get_store f id' w) as Hs.
    destruct (Get f id' w) as [r w']. cbn [fst snd alive] in *.
    by apply indexed_store.
  - pose proof (Close_store ce c w) as Hs.
    destruct (FileContent_Close ce c w) as [r w']. cbn [fst snd alive] in *.
    by apply indexed_store.
  - destruct (cache (store w) !! id') as [cached|] eqn:Hc.
    + destruct (Delete_present f id' w cached Hc) as (r & w' & HD & Hs & _).
      rewrite HD. cbn [fst snd alive]. unfold indexed at 1. rewrite Hs. cbn [cache].
      destruct (decide (id' = id)) as [->|Hne].
      * apply bool_decide_eq_false. rewrite lookup_delete_eq. by intros [? ?].
      * unfold indexed. by rewrite lookup_delete_ne.
    + rewrite (Delete_absent f id' w Hc). cbn [fst snd alive].
      destruct (decide (id' = id)) as [->|Hne]; [|done].
      by apply indexed_false.
Qed.

Lemma alive_cons (id : Id) (a : bool) (e : event) (evs : list event) :
  alive id a (e :: evs) = alive id (alive id a [e]) evs.
Proof. destruct e as [c [id'|err]|? ?|? ?|id' r]; reflexivity. Qed.

Lemma alive_app (id : Id) (a : bool) (evs1 evs2 : list event) :
  alive id a (evs1 ++ evs2) = alive id (alive id a evs1) evs2.
Proof.
  revert a. induction evs1 as [|e evs1 IH]; intros a; [done|].
  rewrite <- app_comm_cons, alive_cons, IH, <- alive_cons. done.
Qed.

Lemma run_indexed (ops : list op) (w : World) (id : Id) :
  indexed id (snd (run ops w)) = alive id (indexed id w) (fst (run ops w)).
Proof.
  revert w. induction ops as [|o ops IH]; intros w; [done|].
  cbn [run]. pose proof (step_indexed o w id) as Hstep.
  destruct (step o w) as [e w1]. specialize (IH w1).
  destruct (run ops w1) as [es w2]. cbn [fst snd] in *.
  rewrite alive_cons, <- Hstep. done.
Qed.

Lemma alive_never_issued (id : Id) (a : bool) (evs : list event) :
  never_issued id evs -> alive id a evs = true -> a = true.
Proof.
  revert a. induction evs as [|e evs IH]; intros a Hnever; [done|].
  assert (Hrest : never_issued id evs).
  { intros c Hin. apply (Hnever c). by right. }
  destruct e as [c [id'|err]|? ?|? ?|id' r]; cbn [alive]; try by apply IH.
  - destruct (decide (id' = id)) as [->|Hne]; [|by apply IH].
    exfalso. apply (Hnever c). by left.
  - destruct (decide (id' = id)) as [->|Hne]; [|by apply IH].
    intros Halive. by apply IH in Halive.
Qed.

Lemma alive_deleted_since (id : Id) (a : bool) (evs : list event) :
  deleted_since id evs -> alive id a evs = false.
Proof.
  intros (evs1 & r & evs2 & -> & Hnever).
  rewrite alive_app. cbn [alive]. rewrite decide_True by done.
  destruct (alive id false evs2) eqn:Halive; [|done].
  by apply alive_never_issued in Halive.
Qed.

(** C4. After any sequence of calls from the empty store, an identifier
    that no put has returned, or on which delete has been called with no
    put returning it since, is refused with [ErrPasteNotFound] by both
    [Get] and [Delete]; neither succeeds, waits or panics, and nothing
    changes. *)
Theorem absent_identifier_not_found (d : string) (maxBytes : Z)
    (ops : list op) (id : Id) :
  let evs := fst (run ops (newFileStore d maxBytes)) in
  let w := snd (run ops (newFileStore d maxBytes)) in
  never_issued id evs \/ deleted_since id evs ->
  forall fault,
    Get fault id w = (Err ErrPasteNotFound, w)
    /\ Delete fault id w = (Returns (Some ErrPasteNotFound), w).
Proof.
  cbv zeta. intros Habsent fault.
  assert (Hidx : indexed id (snd (run ops (newFileStore d maxBytes))) = false).
  { rewrite run_indexed.
    assert (Hinit : indexed id (newFileStore d maxBytes) = false).
    { apply indexed_false. cbn. apply lookup_empty. }
    rewrite Hinit. destruct Habsent as [Hnever|Hdel].
    - destruct (alive id false _) eqn:Halive; [|done].
      by apply alive_never_issued in Halive.
    - by apply alive_deleted_since. }
  apply indexed_false in Hidx.
  split; [by apply Get_absent | by apply Delete_absent].
Qed.

(* --------------------------------------------------------------------- *)
(** ** Deleting while the file cannot be removed, or is being read *)
(* --------------------------------------------------------------------- *)

Example sample_put : Put sample_env sample_content sample_store
                     = (Ok sample_id, sample_store_1).
Proof. vm_compute. reflexivity. Qed.

Example sample_store_1_entry :
  cache (store sample_store_1) !! sample_id
  = Some (mkFileCache 0 (genHeader sample_id 1000 5) "0a/bc00ff").
Proof. vm_compute. reflexivity. Qed.

(** C5, as stated, fails: on an indexed identifier whose file the system
    refuses to remove, [Delete] returns the error of the removal. *)
Lemma delete_surfaces_removal_failure :
  fst (Delete (Some EACCES) sample_id sample_store_1)
    = Returns (Some (ErrOS EACCES))
  /\ ~ delete_hides_removal_failure.
Proof.
  assert (HD : fst (Delete (Some EACCES) sample_id sample_store_1)
               = Returns (Some (ErrOS EACCES))) by (vm_compute; reflexivity).
  split; [exact HD|]. intros Hclaim.
  specialize (Hclaim sample_store_1 sample_id _ (Some EACCES) (ErrOS EACCES)
                sample_store_1_entry eq_refl eq_refl).
  rewrite HD in Hclaim. discriminate Hclaim.
Qed.

(** C5, amended. When the removal of the backing file fails, [Delete]
    returns that failure to its caller, the entry being already out of
    the index and its bytes released from the quota, and the file still
    on disk; the earlier [Id.EndLife] returns nothing, keeps its index as
    it is and arms a timer for another try in two minutes. *)
Theorem delete_returns_removal_failure :
  (forall (w : World) (id : Id) (cached : fileCache) (fault : option errno)
          (e : error),
      cache (store w) !! id = Some cached ->
      reading cached = 0 ->
      os_Remove fault (path cached) (files w) = Err e ->
      exists w',
        Delete fault id w = (Returns (Some e), w')
        /\ cache (store w') = delete id (cache (store w))
        /\ storage (stats (store w'))
           = storage (stats (store w)) - Size (header cached)
        /\ files w' = files w)
  /\ (forall (w : Legacy.World) (id : Id) (fault : option errno) (e : error),
      os_Remove fault (Id_Path id) (Legacy.files w) = Err e ->
      Legacy.m (Legacy.EndLife fault id w) = Legacy.m w
      /\ Legacy.files (Legacy.EndLife fault id w) = Legacy.files w
      /\ Legacy.timers (Legacy.EndLife fault id w)
         = (Legacy.timers w ++ [(id, 2 * Minute)])%list).
Proof.
  split.
  - intros w id cached fault e Hc Hz Hrm.
    unfold Delete. cbv zeta. rewrite Hc. unfold WaitGroup_Wait.
    rewrite Hz. cbn [Z.eqb negb set_store files]. rewrite Hrm.
    eexists. split; [done|]. done.
  - intros w id fault e Hrm. unfold Legacy.EndLife. rewrite Hrm. done.
Qed.

(** No call ever counts on the [WaitGroup] of an entry of the index: [Get]
    counts on its own copy. *)
Lemma reachable_guards_untouched (d : string) (maxBytes : Z) (ops : list op) :
  guards_untouched (snd (run ops (newFileStore d maxBytes))).
Proof.
  unfold guards_untouched.
  by apply (reachable_entries (fun fc => reading fc = 0)).
Qed.

(** So [Delete] never waits, whatever handles are open. *)
Lemma Delete_never_waits (d : string) (maxBytes : Z) (ops : list op)
    (fault : option errno) (id : Id) :
  fst (Delete fault id (snd (run ops (newFileStore d maxBytes)))) <> Waits.
Proof.
  pose proof (reachable_guards_untouched d maxBytes ops) as Hg.
  destruct (cache (store (snd (run ops (newFileStore d maxBytes)))) !! id)
    as [cached|] eqn:Hc.
  - destruct (Delete_present fault id _ cached Hc)
      as (r & w' & HD & _ & _ & _ & Hwaits & _).
    rewrite HD. cbn [fst]. intros Hr. apply Hwaits in Hr.
    by apply Hr, (Hg id).
  - by rewrite (Delete_absent fault id _ Hc).
Qed.

(** C6, on the code.  After any sequence of calls from the empty store, a
    reader opens an entry and holds the handle, its guard counting one;
    a [Delete] of that entry then does not wait: it returns at once, the
    backing file unlinked, while the guard of the open handle still
    counts one. *)
Theorem delete_does_not_wait_for_reader (d : string) (maxBytes : Z)
    (ops : list op) (fault : option errno) (id : Id) (c : FileContent)
    (h : Header) (w2 : World) :
  let w := snd (run ops (newFileStore d maxBytes)) in
  Get fault id w = (Ok (c, h), w2) ->
  guards w2 !! reading_ptr c = Some 1
  /\ exists cached w3,
      cache (store w) !! id = Some cached
      /\ Delete None id w2 = (Returns None, w3)
      /\ files w3 !! path cached = None
      /\ cache (store w3) !! id = None
      /\ guards w3 !! reading_ptr c = Some 1.
Proof.
  cbv zeta. intros HGet.
  pose proof (reachable_guards_untouched d maxBytes ops) as Hg.
  apply Get_ok in HGet as (cached & Hc & Hf & -> & Hptr & ->).
  rewrite (Hg id cached Hc). cbn [guards set_guards].
  rewrite lookup_insert_eq. split; [done|].
  exists cached. unfold Delete. cbv zeta. cbn [store set_guards].
  rewrite Hc. rewrite (Hg id cached Hc). cbn [WaitGroup_Wait Z.eqb negb].
  unfold os_Remove. cbn [files set_store set_guards]. rewrite Hf.
  eexists. split; [done|]. split; [done|].
  cbn [files set_files store set_store cache guards set_guards].
  rewrite !lookup_delete_eq, lookup_insert_eq. done.
Qed.

(* --------------------------------------------------------------------- *)
(** ** Recovery *)
(* --------------------------------------------------------------------- *)

Lemma Time_Sub_exact (t u : Z) :
  minDuration <= t - u <= maxDuration -> Time_Sub t u = t - u.
Proof.
  intros [Hlo Hhi]. unfold Time_Sub.
  destruct (Z.ltb_spec maxDuration (t - u)); [lia|].
  destruct (Z.ltb_spec (t - u) minDuration); [lia|done].
Qed.

(** [Recover] on a regular file whose path names an identifier. *)
Lemma Recover_file (cfg : Config) (fault : option errno) (p p0 p1 : string)
    (fi : FileInfo) (w : World) (id : Id) :
  fi_IsDir fi = false ->
  Split p Separator = [p0; p1] ->
  IDFromString (p0 ++ p1) = Ok id ->
  Recover cfg fault p fi None w =
    let death := Time_Add (fi_ModTime fi) (lifeTime cfg) in
    if (0 <? lifeTime cfg) && Time_Before death (startTime cfg) then
      match os_Remove fault p (files w) with
      | Err e => (Some e, w)
      | Ok d => (None, set_files d w)
      end
    else if hasSpaceFor (fi_Size fi) (stats (store w)) then
      (None,
       mkWorld
         (mkFileStore
            (<[id := mkFileCache 0 (genHeader id (fi_ModTime fi) (fi_Size fi)) p]>
               (cache (store w)))
            (dir (store w))
            (makeSpaceFor (fi_Size fi) (stats (store w))))
         (files w) (guards w)
         (timers w ++ [(id, Time_Sub death (startTime cfg))])%list)
    else (Some ErrReachedMax, w).
Proof.
  intros Hd Hs Hid. unfold Recover. rewrite Hd, Hs, Hid. cbv zeta.
  destruct (_ && _); [done|].
  by destruct (hasSpaceFor _ _).
Qed.

Lemma os_Remove_gone (fault : option errno) (p : string)
    (d d' : gmap string (list byte)) :
  os_Remove fault p d = Ok d' -> d' !! p = None.
Proof.
  unfold os_Remove. destruct fault; [intros [=]|].
  destruct (d !! p); intros [= <-]. apply lookup_delete_eq.
Qed.

(** C7, as stated, fails on [walkFunc]: a file stamped one hour after
    the recovery time, with a lifetime of twelve hours, has thirteen
    hours between recovery and death, and its deletion is scheduled
    after twelve. *)
Lemma walkFunc_caps_remaining_life :
  let cfg := mkConfig (12 * Hour) sample_start in
  let fi := mkFileInfo false (sample_start + Hour) 5 in
  let r := Legacy.walkFunc sample_detect cfg sample_start None "0a/bc00ff" fi
             None sample_legacy in
  let remaining := Time_Add (fi_ModTime fi) (lifeTime cfg) - sample_start in
  fst r = None
  /\ is_Some (Legacy.m (snd r) !! sample_id)
  /\ Legacy.timers (snd r) = [(sample_id, 12 * Hour)]
  /\ remaining = 13 * Hour
  /\ Legacy.timers (snd r) <> [(sample_id, remaining)].
Proof. vm_compute. repeat split; try done. by eexists. Qed.

(** C7, amended.  For a regular file found during recovery.  When its
    path names an identifier, under a positive lifetime: if its
    modification time plus the lifetime is before the recovery time, its
    identifier is not put into the index and its deletion is carried out
    or started: [Recover] removes the file at once, and returns the
    error of the removal, with nothing changed, when that fails;
    [walkFunc] starts [id.EndLife()] for it.
    Otherwise [Recover] indexes the file when the quota admits its size,
    with the metadata made from its identifier, modification time and
    size, and schedules its deletion for the death time minus the
    recovery time; when the quota does not admit it, [Recover] returns
    [ErrReachedMax] and nothing is indexed, scheduled or removed.
    [walkFunc] indexes the file when it can be opened and is not empty,
    with the metadata made from its identifier, modification time and
    head, and schedules its deletion for the death time minus the recovery
    time, capped at the lifetime when the file is stamped later than the
    recovery time; when the file cannot be opened it returns that error,
    when it is empty [io.EOF], and nothing is indexed, scheduled or
    removed.  When the path names no identifier both return an error and
    change nothing. *)
Theorem recovery_fidelity :
  (forall (cfg : Config) (fault : option errno) (p p0 p1 : string)
          (fi : FileInfo) (w : World) (id : Id),
      0 < lifeTime cfg ->
      fi_IsDir fi = false ->
      Split p Separator = [p0; p1] ->
      IDFromString (p0 ++ p1) = Ok id ->
      let death := Time_Add (fi_ModTime fi) (lifeTime cfg) in
      (death < startTime cfg ->
         (forall d, os_Remove fault p (files w) = Ok d ->
            Recover cfg fault p fi None w = (None, set_files d w)
            /\ d !! p = None)
         /\ (forall e, os_Remove fault p (files w) = Err e ->
            Recover cfg fault p fi None w = (Some e, w)))
      /\ (startTime cfg <= death ->
          hasSpaceFor (fi_Size fi) (stats (store w)) = true ->
          exists w',
            Recover cfg fault p fi None w = (None, w')
            /\ cache (store w') !! id
               = Some (mkFileCache 0 (genHeader id (fi_ModTime fi) (fi_Size fi)) p)
            /\ files w' = files w
            /\ timers w' = (timers w ++ [(id, Time_Sub death (startTime cfg))])%list
            /\ (death - startTime cfg <= maxDuration ->
                Time_Sub death (startTime cfg) = death - startTime cfg))
      /\ (startTime cfg <= death ->
          hasSpaceFor (fi_Size fi) (stats (store w)) = false ->
          Recover cfg fault p fi None w = (Some ErrReachedMax, w)))
  /\ (forall (detect : list byte -> string) (cfg : Config) (now : Z)
          (fault : option errno) (p : string) (fi : FileInfo)
          (w : Legacy.World) (id : Id),
      fi_IsDir fi = false ->
      IdFromPath p = Ok id ->
      let death := Time_Add (fi_ModTime fi) (lifeTime cfg) in
      (death < now ->
         Legacy.walkFunc detect cfg now fault p fi None w
         = (None, Legacy.mkWorld (Legacy.m w) (Legacy.files w) (Legacy.timers w)
                    (Legacy.spawned w ++ [id])%list))
      /\ (now <= death ->
          forall data head,
            os_Open fault p (Legacy.files w) = Ok data ->
            Legacy.read_head data = Ok head ->
            exists w',
              Legacy.walkFunc detect cfg now fault p fi None w = (None, w')
              /\ Legacy.m w' !! id
                 = Some (Legacy.GenPasteInfo detect id (fi_ModTime fi) head)
              /\ Legacy.files w' = Legacy.files w
              /\ Legacy.timers w'
                 = (Legacy.timers w ++
                    [(id, if now <? fi_ModTime fi then lifeTime cfg
                          else Time_Sub death now)])%list)
      /\ (now <= death ->
          forall e, os_Open fault p (Legacy.files w) = Err e ->
            Legacy.walkFunc detect cfg now fault p fi None w = (Some e, w))
      /\ (now <= death ->
          os_Open fault p (Legacy.files w) = Ok [] ->
          Legacy.walkFunc detect cfg now fault p fi None w = (Some ErrEOF, w)))
  /\ (forall data : list byte,
        data <> [] ->
        Legacy.read_head data
        = Ok (take 512 data ++ replicate (512 - length data)%nat x00)%list)
  /\ (forall (cfg : Config) (fault : option errno) (p : string)
          (fi : FileInfo) (w : World) (e : error),
        fi_IsDir fi = false ->
        IdFromPath p = Err e ->
        Recover cfg fault p fi None w = (Some e, w))
  /\ (forall (detect : list byte -> string) (cfg : Config) (now : Z)
          (fault : option errno) (p : string) (fi : FileInfo)
          (w : Legacy.World) (e : error),
        fi_IsDir fi = false ->
        IdFromPath p = Err e ->
        Legacy.walkFunc detect cfg now fault p fi None w
        = (Some (ErrIncompatibleId p), w)).
Proof.
  split; [|split; [|split; [|split]]].
  - intros cfg fault p p0 p1 fi w id Hlife Hd Hs Hid. cbv zeta.
    rewrite (Recover_file cfg fault p p0 p1 fi w id Hd Hs Hid). cbv zeta.
    unfold Time_Before, Time_Add.
    destruct (Z.ltb_spec 0 (lifeTime cfg)) as [_|]; [|lia]. cbn [andb].
    split; [|split].
    + intros Hdead.
      destruct (Z.ltb_spec (fi_ModTime fi + lifeTime cfg) (startTime cfg)); [|lia].
      split.
      * intros d Hrm. rewrite Hrm. split; [done|]. by eapply os_Remove_gone.
      * intros e Hrm. by rewrite Hrm.
    + intros Hlive Hspace.
      destruct (Z.ltb_spec (fi_ModTime fi + lifeTime cfg) (startTime cfg)); [lia|].
      rewrite Hspace. eexists. split; [done|]. cbn [store cache files timers].
      rewrite lookup_insert_eq. repeat split; try done.
      intros Hfit. apply Time_Sub_exact. unfold minDuration. lia.
    + intros Hlive Hfull.
      destruct (Z.ltb_spec (fi_ModTime fi + lifeTime cfg) (startTime cfg)); [lia|].
      by rewrite Hfull.
  - intros detect cfg now fault p fi w id Hd Hid. cbv zeta.
    unfold Legacy.walkFunc. rewrite Hd, Hid. unfold Time_Before, Time_After, Time_Add.
    split; [|split; [|split]].
    + intros Hdead.
      by destruct (Z.ltb_spec (fi_ModTime fi + lifeTime cfg) now); [|lia].
    + intros Hlive data head Hopen Hread.
      destruct (Z.ltb_spec (fi_ModTime fi + lifeTime cfg) now); [lia|].
      rewrite Hopen, Hread. eexists. split; [done|].
      unfold Legacy.EndLifeAfter. cbn [Legacy.m Legacy.files Legacy.timers].
      rewrite lookup_insert_eq. repeat split; try done.
      destruct (Z.ltb_spec (now + lifeTime cfg) (fi_ModTime fi + lifeTime cfg));
        destruct (Z.ltb_spec now (fi_ModTime fi)); (done || lia).
    + intros Hlive e Hopen.
      destruct (Z.ltb_spec (fi_ModTime fi + lifeTime cfg) now); [lia|].
      by rewrite Hopen.
    + intros Hlive Hopen.
      destruct (Z.ltb_spec (fi_ModTime fi + lifeTime cfg) now); [lia|].
      by rewrite Hopen.
  - intros [|b data] Hne; [done|]. reflexivity.
  - intros cfg fault p fi w e Hd Hid. unfold Recover. rewrite Hd.
    unfold IdFromPath in Hid. cbv zeta in Hid. unfold IDFromString.
    destruct (Split p Separator) as [|p0 [|p1 [|p2 rest]]];
      try by injection Hid as <-.
    by rewrite Hid.
  - intros detect cfg now fault p fi w e Hd Hid.
    unfold Legacy.walkFunc. by rewrite Hd, Hid.
Qed.

(** A file that is not past its death time and still is not indexed: an
    empty one stops [walkFunc] with [io.EOF], one larger than the free
    quota stops [Recover] with [ErrReachedMax]; nothing is indexed,
    scheduled or removed. *)
Example recovery_stops_at_live_file :
  let cfg := mkConfig (12 * Hour) sample_start in
  Legacy.walkFunc sample_detect cfg sample_start None "0a/bc00ff"
    (mkFileInfo false (sample_start - Hour) 0) None
    (Legacy.mkWorld ∅ {[ "0a/bc00ff" := [] ]} [] [])
  = (Some ErrEOF, Legacy.mkWorld ∅ {[ "0a/bc00ff" := [] ]} [] [])
  /\ Recover cfg None "0a/bc00ff" (mkFileInfo false (sample_start - Hour) 101)
       None sample_disk
     = (Some ErrReachedMax, sample_disk).
Proof. split; reflexivity. Qed.

(** The three files of the recovery scenario: the first is removed and
    not indexed, the other two are indexed and scheduled for the one and
    the eleven hours they have left. *)
Example recovery_three_files :
  let r := walk_files (mkConfig (12 * Hour) sample_start) three_infos three_pastes in
  fst r = None
  /\ files (snd r) !! "0a/000001" = None
  /\ cache (store (snd r)) !! mkId x0a x00 x00 x01 = None
  /\ is_Some (cache (store (snd r)) !! mkId x0a x00 x00 x02)
  /\ is_Some (cache (store (snd r)) !! mkId x0a x00 x00 x03)
  /\ timers (snd r)
     = [(mkId x0a x00 x00 x02, 1 * Hour); (mkId x0a x00 x00 x03, 11 * Hour)]
  /\ storage (stats (store (snd r))) = 10.
Proof. vm_compute. repeat split; by eexists. Qed.

(* --------------------------------------------------------------------- *)
(** ** The theorems at sample values *)
(* --------------------------------------------------------------------- *)

Lemma put_get_roundtrip_witness :
  Put sample_env sample_content sample_store = (Ok sample_id, sample_store_1)
  /\ exists c h w2,
      Get None sample_id sample_store_1 = (Ok (c, h), w2)
      /\ FileContent_ReadAll c = sample_content
      /\ Size h = 5.
Proof.
  split; [vm_compute; reflexivity|].
  destruct (put_get_roundtrip sample_env sample_content sample_store
              sample_store_1 sample_id) as (H & _ & _);
    [vm_compute; reflexivity|].
  exact H.
Defined.

Lemma capacity_boundary_witness :
  Put sample_env (replicate 101 x61) sample_store = (Err ErrReachedMax, sample_store)
  /\ exists w', Put sample_env (replicate 100 x61) sample_store = (Ok sample_id, w').
Proof.
  destruct (capacity_boundary sample_store eq_refl eq_refl) as (H101 & _ & H100).
  split.
  - apply H101. reflexivity.
  - destruct (H100 sample_env (replicate 100 x61) sample_id) as (w' & HP & _).
    + reflexivity.
    + vm_compute; reflexivity.
    + vm_compute; reflexivity.
    + repeat split; try reflexivity. cbn. lia.
    + exists w'. exact HP.
Defined.

Lemma absent_identifier_not_found_witness :
  let w := snd (run [OpPut sample_env sample_content; OpDelete None sample_id]
                  sample_store) in
  Get None sample_id w = (Err ErrPasteNotFound, w)
  /\ Delete None sample_id w = (Returns (Some ErrPasteNotFound), w).
Proof.
  apply (absent_identifier_not_found "data" 100
           [OpPut sample_env sample_content; OpDelete None sample_id] sample_id).
  right. exists [EvPut sample_content (Ok sample_id)], (Returns None), [].
  split; [vm_compute; reflexivity|].
  intros content Hin. inversion Hin.
Defined.

Lemma delete_returns_removal_failure_witness :
  (exists w',
      Delete (Some EACCES) sample_id sample_store_1
        = (Returns (Some (ErrOS EACCES)), w')
      /\ cache (store w') = delete sample_id (cache (store sample_store_1))
      /\ storage (stats (store w')) = storage (stats (store sample_store_1)) - 5
      /\ files w' = files sample_store_1)
  /\ Legacy.timers (Legacy.EndLife (Some EACCES) sample_id sample_legacy)
     = [(sample_id, 2 * Minute)].
Proof.
  destruct delete_returns_removal_failure as [HDelete HEndLife].
  split.
  - apply (HDelete sample_store_1 sample_id
             (mkFileCache 0 (genHeader sample_id 1000 5) "0a/bc00ff")
             (Some EACCES) (ErrOS EACCES)).
    + vm_compute; reflexivity.
    + reflexivity.
    + reflexivity.
  - apply (HEndLife sample_legacy sample_id (Some EACCES) (ErrOS EACCES)).
    reflexivity.
Defined.

Lemma delete_does_not_wait_for_reader_witness :
  guards sample_store_2 !! 1%positive = Some 1
  /\ exists cached w3,
      cache (store sample_store_1) !! sample_id = Some cached
      /\ Delete None sample_id sample_store_2 = (Returns None, w3)
      /\ files w3 !! path cached = None
      /\ cache (store w3) !! sample_id = None
      /\ guards w3 !! 1%positive = Some 1.
Proof.
  apply (delete_does_not_wait_for_reader "data" 100
           [OpPut sample_env sample_content] None sample_id
           (mkFileContent sample_content 1) (genHeader sample_id 1000 5)
           sample_store_2).
  vm_compute; reflexivity.
Defined.

Lemma recovery_fidelity_witness :
  (exists w',
      Recover (mkConfig (12 * Hour) sample_start) None "0a/bc00ff"
        (mkFileInfo false (sample_start - Hour) 5) None sample_disk = (None, w')
      /\ cache (store w') !! sample_id
         = Some (mkFileCache 0 (genHeader sample_id (sample_start - Hour) 5) "0a/bc00ff")
      /\ files w' = files sample_disk
      /\ timers w' = [(sample_id, 11 * Hour)])
  /\ Recover (mkConfig (12 * Hour) sample_start) None "0a/bc00ff"
       (mkFileInfo false (sample_start - Hour) 101) None sample_disk
     = (Some ErrReachedMax, sample_disk)
  /\ (exists w',
      Legacy.walkFunc sample_detect (mkConfig (12 * Hour) sample_start)
        sample_start None "0a/bc00ff"
        (mkFileInfo false (sample_start - Hour) 5) None sample_legacy = (None, w')
      /\ Legacy.timers w' = [(sample_id, 11 * Hour)])
  /\ Legacy.walkFunc sample_detect (mkConfig (12 * Hour) sample_start)
       sample_start None "0a/bc00ff"
       (mkFileInfo false (sample_start - Hour) 0) None
       (Legacy.mkWorld ∅ {[ "0a/bc00ff" := [] ]} [] [])
     = (Some ErrEOF, Legacy.mkWorld ∅ {[ "0a/bc00ff" := [] ]} [] [])
  /\ Recover (mkConfig (12 * Hour) sample_start) None "0a/zz"
       (mkFileInfo false (sample_start - Hour) 5) None sample_disk
     = (Some ErrInvalidId, sample_disk).
Proof.
  destruct recovery_fidelity as (HRecover & HwalkFunc & _ & Hname & _).
  split; [|split; [|split; [|split]]].
  - destruct (HRecover (mkConfig (12 * Hour) sample_start) None "0a/bc00ff"
                "0a" "bc00ff" (mkFileInfo false (sample_start - Hour) 5)
                sample_disk sample_id) as (_ & Hlive & _);
      [reflexivity | reflexivity | reflexivity | reflexivity |].
    destruct Hlive as (w' & HR & Hc & Hf & Ht & _);
      [vm_compute; discriminate | reflexivity |].
    exists w'. repeat split; [exact HR | exact Hc | exact Hf | exact Ht].
  - destruct (HRecover (mkConfig (12 * Hour) sample_start) None "0a/bc00ff"
                "0a" "bc00ff" (mkFileInfo false (sample_start - Hour) 101)
                sample_disk sample_id) as (_ & _ & Hfull);
      [reflexivity | reflexivity | reflexivity | reflexivity |].
    apply Hfull; [vm_compute; discriminate | reflexivity].
  - destruct (HwalkFunc sample_detect (mkConfig (12 * Hour) sample_start)
                sample_start None "0a/bc00ff"
                (mkFileInfo false (sample_start - Hour) 5)
                sample_legacy sample_id) as (_ & Hlive & _);
      [reflexivity | reflexivity |].
    destruct (Hlive) with (data := sample_content)
                (head := (sample_content ++ replicate 507 x00)%list)
      as (w' & HW & _ & _ & Ht);
      [vm_compute; discriminate | reflexivity | reflexivity |].
    exists w'. split; [exact HW | exact Ht].
  - destruct (HwalkFunc sample_detect (mkConfig (12 * Hour) sample_start)
                sample_start None "0a/bc00ff"
                (mkFileInfo false (sample_start - Hour) 0)
                (Legacy.mkWorld ∅ {[ "0a/bc00ff" := [] ]} [] []) sample_id)
      as (_ & _ & _ & Hempty);
      [reflexivity | reflexivity |].
    apply Hempty; [vm_compute; discriminate | reflexivity].
  - apply (Hname (mkConfig (12 * Hour) sample_start) None "0a/zz"
             (mkFileInfo false (sample_start - Hour) 5) sample_disk ErrInvalidId);
      reflexivity.
Defined.

Lemma identifier_generation_witness :
  (cache (store sample_store) !! sample_id = None
   /\ exists try, (try < randTries)%nat /\ rand sample_env try = Some sample_id
                  /\ forall j, (j < try)%nat ->
                       wasted (rand sample_env) (cache (store sample_store)) j)
  /\ Legacy.RandomId (rand sample_env) sample_legacy = Ok sample_id
  /\ Legacy.RandomId (fun _ => None) sample_legacy = Err ErrRand.
Proof.
  destruct identifier_generation
    as (HrandomID & _ & _ & HRandomId & _ & HErrRand & _).
  split; [|split].
  - apply (HrandomID (rand sample_env) (store sample_store) sample_id).
    reflexivity.
  - apply (HRandomId (rand sample_env) sample_legacy sample_id).
    split; [reflexivity|]. exists 0%nat.
    split; [unfold randTries; lia|]. split; [reflexivity|].
    intros j Hj. lia.
  - apply (HErrRand (fun _ => None) sample_legacy).
    exists 0%nat. split; [unfold randTries; lia|]. split; [reflexivity|].
    intros j Hj. lia.
Defined.

(* --------------------------------------------------------------------- *)
(** ** The library functions at known values *)
(* --------------------------------------------------------------------- *)

(** [path.Clean] on the examples of its documentation. *)
Example Clean_examples :
  map Clean ["a/c"; "a//c"; "a/c/."; "a/c/b/.."; "/../a/c"; "/../a/b/../././/c";
             EmptyString; "abc/def/../../.."; "../../abc"; "/"]
  = ["a/c"; "a/c"; "a/c"; "a/c"; "/a/c"; "/a/c"; "."; ".."; "../../abc"; "/"].
Proof. reflexivity. Qed.

Example Split_examples :
  Split "a/b/c" "/" = ["a"; "b"; "c"]
  /\ Split EmptyString "/" = [EmptyString]
  /\ Split "a//" "/" = ["a"; EmptyString; EmptyString].
Proof. repeat split. Qed.

(** Upper-case digits decode, odd lengths and other characters do not. *)
Example DecodeString_examples :
  DecodeString "0A" = Some [x0a]
  /\ DecodeString "0g" = None
  /\ DecodeString "abc" = None.
Proof. repeat split. Qed.

Example Id_Path_example :
  Id_Path (mkId x0a xbc x00 xff) = "0a/bc00ff".
Proof. reflexivity. Qed.

Example IdFromPath_example :
  IdFromPath "0a/bc00ff" = Ok (mkId x0a xbc x00 xff).
Proof. reflexivity. Qed.

(* ===================================================================== *)
(** * More of the code *)
(* ===================================================================== *)

(* --------------------------------------------------------------------- *)
(** ** Identifiers as text *)
(* --------------------------------------------------------------------- *)

Lemma IdFromString_Id_String (id : Id) : IdFromString (Id_String id) = Ok id.
Proof.
  destruct id as [a b c d]. unfold IdFromString, Id_String, Id_bytes.
  cbn [id0 id1 id2 id3].
  rewrite EncodeToString_length, DecodeString_EncodeToString. reflexivity.
Qed.

(** X1. Parsing the text of an identifier gives the identifier back, so
    two identifiers with the same text are the same. *)
Theorem Id_String_roundtrip :
  (forall id, IdFromString (Id_String id) = Ok id)
  /\ (forall id id', Id_String id = Id_String id' -> id = id')
  /\ (forall id, String.length (Id_String id) = idSize).
Proof.
  split; [apply IdFromString_Id_String|]. split.
  - intros id id' Heq. pose proof (IdFromString_Id_String id) as H1.
    rewrite Heq, IdFromString_Id_String in H1. by injection H1.
  - intros id. unfold Id_String. by rewrite EncodeToString_length.
Qed.

Lemma str_take_drop (k : nat) (s : string) : str_take k s ++ str_drop k s = s.
Proof.
  revert s. induction k as [|k IH]; intros [|c s]; simpl; try done.
  by rewrite IH.
Qed.

Lemma plain_take_drop (k : nat) (s : string) :
  plain s = true -> plain (str_take k s) = true /\ plain (str_drop k s) = true.
Proof.
  intros Hs. rewrite <- (str_take_drop k s), plain_app in Hs.
  by apply andb_prop in Hs.
Qed.

Lemma Id_String_plain (id : Id) : plain (Id_String id) = true.
Proof. apply EncodeToString_plain. Qed.

Lemma IdFromPath_split_at (k : nat) (id : Id) :
  IdFromPath (split_at k id) = Ok id.
Proof.
  destruct (plain_take_drop k _ (Id_String_plain id)) as [Ht Hd].
  unfold IdFromPath, split_at, Separator.
  change (str_take k (Id_String id) ++ "/" ++ str_drop k (Id_String id))
    with (str_take k (Id_String id) ++ String "/" (str_drop k (Id_String id))).
  rewrite (Split_plain_app _ _ Ht), (Split_plain _ Hd), str_take_drop.
  apply IdFromString_Id_String.
Qed.

Lemma Id_Path_split_at (id : Id) : Id_Path id = split_at 2 id.
Proof.
  destruct id as [a b c d].
  pose proof (EncodeToString_plain [a]) as Hdir.
  pose proof (EncodeToString_plain [b; c; d]) as Hfile.
  unfold Id_Path, split_at, Id_String, Id_bytes. cbn [id0 id1 id2 id3].
  cbn [EncodeToString EncodeByte String.append str_take str_drop] in *.
  by apply Join_plain.
Qed.

Lemma Id_Path_inj (id id' : Id) : Id_Path id = Id_Path id' -> id = id'.
Proof.
  intros Heq. pose proof (IdFromPath_split_at 2 id) as H1.
  rewrite <- Id_Path_split_at, Heq, Id_Path_split_at, IdFromPath_split_at in H1.
  by injection H1.
Qed.

(** X2. [IdFromPath] does not care where the separator stands: the hex
    digits of an identifier, cut after any number of digits, read back
    as that identifier.  So paths other than [id.Path()] name the same
    identifier. *)
Theorem IdFromPath_any_split (id : Id) :
  (forall k, IdFromPath (split_at k id) = Ok id)
  /\ split_at 1 id <> Id_Path id.
Proof.
  split; [intros k; apply IdFromPath_split_at|].
  rewrite Id_Path_split_at. destruct id as [a b c d].
  unfold split_at, Id_String, Id_bytes. cbn [id0 id1 id2 id3].
  cbn [EncodeToString EncodeByte String.append str_take str_drop].
  intros [= H _].
  pose proof (hexdigit_plain (N.land (Byte.to_N a) 15)) as Hp.
  rewrite <- H in Hp. discriminate Hp.
Qed.

(** X3. Two identifiers never share a storage path. *)
Theorem Id_Path_injective (id id' : Id) :
  Id_Path id = Id_Path id' -> id = id'.
Proof.
  intros Heq. pose proof (IdFromPath_split_at 2 id) as H1.
  rewrite <- Id_Path_split_at, Heq, Id_Path_split_at, IdFromPath_split_at in H1.
  by injection H1.
Qed.

Lemma Id_Path_injective_witness : sample_id = mkId x0a xbc x00 xff.
Proof. apply (Id_Path_injective sample_id (mkId x0a xbc x00 xff)). reflexivity. Defined.

Lemma fromHexChar_lower (c : ascii) (a : N) :
  fromHexChar c = Some a -> (a < 16)%N /\ hexdigit a = lower_char c.
Proof.
  intros H.
  destruct c as [[|] [|] [|] [|] [|] [|] [|] [|]]; vm_compute in H;
    first [discriminate H | injection H as <-; split; reflexivity].
Qed.

Lemma is_hex_char_value (c : ascii) :
  is_hex_char c = true -> exists a, fromHexChar c = Some a.
Proof. unfold is_hex_char. destruct (fromHexChar c); [eauto|done]. Qed.

Lemma EncodeByte_nibbles (a b : N) :
  (a < 16)%N -> (b < 16)%N ->
  EncodeByte (byte_of_nibbles a b)
  = String (hexdigit a) (String (hexdigit b) EmptyString).
Proof.
  intros Ha Hb.
  assert (Hcases : forall x : N, (x < 16)%N ->
    In x [0; 1; 2; 3; 4; 5; 6; 7; 8; 9; 10; 11; 12; 13; 14; 15]%N).
  { intros x Hx. rewrite <- (N2Nat.id x).
    assert (Hk : (N.to_nat x < 16)%nat) by lia. revert Hk.
    generalize (N.to_nat x) as k. intros k Hk.
    do 16 (destruct k as [|k]; [simpl; tauto|]). lia. }
  pose proof (Hcases a Ha) as Ia. pose proof (Hcases b Hb) as Ib.
  simpl in Ia, Ib.
  repeat (destruct Ia as [<-|Ia]; [|try done]);
    repeat (destruct Ib as [<-|Ib]; [reflexivity|try done]).
Qed.

Lemma DecodeString_spec (n : nat) :
  forall (s : string) (l : list byte),
    (String.length s <= n)%nat -> DecodeString s = Some l ->
    all_chars is_hex_char s = true
    /\ EncodeToString l = ToLower s
    /\ String.length s = (2 * List.length l)%nat.
Proof.
  induction n as [|n IH]; intros s l Hlen Hdec.
  - destruct s; [|simpl in Hlen; lia]. injection Hdec as <-. done.
  - destruct s as [|p [|q rest]]; [by injection Hdec as <-|done|].
    cbn [DecodeString] in Hdec.
    destruct (fromHexChar p) as [a|] eqn:Hp; [|done].
    destruct (fromHexChar q) as [b|] eqn:Hq; [|done].
    destruct (DecodeString rest) as [l'|] eqn:Hrest; [|done].
    injection Hdec as <-.
    destruct (IH rest l') as (Hall & Henc & Hl); [simpl in Hlen; lia|done|].
    destruct (fromHexChar_lower p a Hp) as [Ha Hlp].
    destruct (fromHexChar_lower q b Hq) as [Hb Hlq].
    split; [|split].
    + cbn [all_chars]. unfold is_hex_char at 1 2. by rewrite Hp, Hq.
    + cbn [EncodeToString ToLower]. rewrite (EncodeByte_nibbles a b Ha Hb).
      cbn [String.append]. by rewrite Henc, Hlp, Hlq.
    + cbn [String.length List.length]. lia.
Qed.

Lemma DecodeString_accepts (n : nat) :
  forall s : string,
    (String.length s <= n)%nat ->
    all_chars is_hex_char s = true ->
    Nat.even (String.length s) = true ->
    exists l, DecodeString s = Some l.
Proof.
  induction n as [|n IH]; intros s Hlen Hall Heven.
  - destruct s; [by eexists|simpl in Hlen; lia].
  - destruct s as [|p [|q rest]]; [by eexists|done|].
    cbn [all_chars] in Hall.
    apply andb_prop in Hall as [Hp Hall]. apply andb_prop in Hall as [Hq Hall].
    destruct (is_hex_char_value p Hp) as [a Ha].
    destruct (is_hex_char_value q Hq) as [b Hb].
    destruct (IH rest) as [l Hl]; [simpl in Hlen; lia|done|done|].
    exists (byte_of_nibbles a b :: l). cbn [DecodeString].
    by rewrite Ha, Hb, Hl.
Qed.

(** X4. [IdFromString] accepts exactly the strings of eight hex digits,
    of either case; the identifier it returns prints as the string in
    lower case; every other string is refused with "Invalid id". *)
Theorem IdFromString_accepts :
  (forall s id,
      IdFromString s = Ok id ->
      String.length s = idSize
      /\ all_chars is_hex_char s = true
      /\ Id_String id = ToLower s)
  /\ (forall s,
      String.length s = idSize -> all_chars is_hex_char s = true ->
      exists id, IdFromString s = Ok id)
  /\ (forall s e, IdFromString s = Err e -> e = ErrInvalidId).
Proof.
  split; [|split].
  - intros s id. unfold IdFromString.
    destruct (Nat.eqb_spec (String.length s) idSize) as [Hlen|]; [|done].
    cbn [negb]. destruct (DecodeString s) as [l|] eqn:Hdec; [|done].
    destruct (Nat.eqb_spec (List.length l) rawIdSize) as [Hl|]; [|done].
    cbn [negb]. intros [= <-].
    destruct (DecodeString_spec _ s l (le_n _) Hdec) as (Hall & Henc & _).
    split; [done|]. split; [done|]. rewrite <- Henc.
    destruct l as [|a [|b [|c [|d [|x l]]]]]; try done.
  - intros s Hlen Hall.
    destruct (DecodeString_accepts _ s (le_n _) Hall) as [l Hdec];
      [by rewrite Hlen|].
    destruct (DecodeString_spec _ s l (le_n _) Hdec) as (_ & _ & Hl).
    unfold IdFromString. rewrite Hlen, Nat.eqb_refl, Hdec. cbn [negb].
    assert (List.length l = rawIdSize) as ->.
    { rewrite Hlen in Hl. change rawIdSize with 4%nat.
      change idSize with 8%nat in Hl. lia. }
    rewrite Nat.eqb_refl. by eexists.
  - intros s e. unfold IdFromString.
    destruct (negb _); [by intros [= <-]|].
    destruct (DecodeString s); [|by intros [= <-]].
    destruct (negb _); [by intros [= <-]|done].
Qed.

Lemma IdFromString_accepts_witness :
  String.length "0ABC00ff" = idSize
  /\ all_chars is_hex_char "0ABC00ff" = true
  /\ Id_String sample_id = ToLower "0ABC00ff".
Proof.
  apply (proj1 IdFromString_accepts "0ABC00ff" sample_id). reflexivity.
Defined.

(* --------------------------------------------------------------------- *)
(** ** The store and its files *)
(* --------------------------------------------------------------------- *)

Lemma run_preserves (P : World -> Prop) :
  (forall o w, P w -> P (snd (step o w))) ->
  forall ops w, P w -> P (snd (run ops w)).
Proof.
  intros Hstep ops. induction ops as [|o ops IH]; intros w HP; [done|].
  cbn [run]. pose proof (Hstep o w HP) as HP1.
  destruct (step o w) as [e w1]. specialize (IH w1 HP1).
  destruct (run ops w1) as [es w2]. done.
Qed.

(** The first draw decides when it is an unused identifier. *)
Lemma randomID_first (rnd : nat -> option Id) (s : FileStore) (id : Id) :
  rnd 0%nat = Some id -> cache s !! id = None -> randomID rnd s = Ok id.
Proof. intros Hr Hc. unfold randomID. cbn [randTries randomID_from]. by rewrite Hr, Hc. Qed.

Lemma randomID_unused (rnd : nat -> option Id) (s : FileStore) (id : Id) :
  randomID rnd s = Ok id -> cache s !! id = None.
Proof.
  intros Hid. pose proof (randomID_from_spec randTries 0 rnd (cache s)) as Hs.
  unfold randomID in Hid. rewrite Hid in Hs. by destruct Hs.
Qed.

(** [writeNewFile] changes no file that exists, and no other name. *)
Lemma writeNewFile_keeps (env : PutEnv) (filename p : string)
    (data old : list byte) (d d' : gmap string (list byte)) (e : option error) :
  writeNewFile env filename data d = (e, d') ->
  d !! p = Some old -> d' !! p = Some old.
Proof.
  intros Hw Hp. destruct (decide (p = filename)) as [->|Hne].
  - unfold writeNewFile, os_OpenFile_excl in Hw.
    destruct (open_fault env); [by inversion Hw; subst|].
    rewrite Hp in Hw. by inversion Hw; subst.
  - by rewrite (writeNewFile_other _ _ _ _ _ _ _ Hw Hne).
Qed.

(** What a failed [Put] can have done: nothing, or left the file of the
    identifier it drew. *)
Lemma Put_err_files (env : PutEnv) (content : list byte) (w w' : World) (e : error) :
  Put env content w = (Err e, w') ->
  w' = w
  \/ exists id d,
       randomID (rand env) (store w) = Ok id
       /\ w' = set_files d w
       /\ writeNewFile env (Id_Path id) content (files w) = (Some e, d).
Proof.
  unfold Put. cbv zeta.
  destruct (hasSpaceFor _ _); cbn [negb]; [|intros [= _ <-]; by left].
  destruct (randomID _ _) as [id|e'] eqn:Hid; [|intros [= _ <-]; by left].
  fold (Id_Path id).
  destruct (writeNewFile _ _ _ _) as [[e'|] d] eqn:Hw; [|intros [=]].
  intros [= -> <-]. right. by exists id, d.
Qed.

Lemma Get_files (fault : option errno) (id : Id) (w : World) :
  files (snd (Get fault id w)) = files w.
Proof.
  unfold Get. destruct (cache (store w) !! id); [|done].
  by destruct (os_Open _ _ _).
Qed.

Lemma Close_files (cerr : option errno) (c : FileContent) (w : World) :
  files (snd (FileContent_Close cerr c w)) = files w.
Proof. unfold FileContent_Close. cbv zeta. by destruct (_ <? _). Qed.

Lemma step_entries_backed (o : op) (w : World) :
  entries_backed w -> entries_backed (snd (step o w)).
Proof.
  unfold entries_backed. intros Hb.
  destruct o as [env content|f id|ce c|f id]; cbn [step].
  - destruct (Put env content w) as [[id|e] w'] eqn:HPut; cbn [snd].
    + apply Put_ok in HPut as (_ & Hid & Hfree & ->). cbn [store cache files].
      apply randomID_unused in Hid.
      intros j fc. destruct (decide (id = j)) as [->|Hne].
      * rewrite lookup_insert_eq. intros [= <-]. cbn [path header genHeader HeaderID Size].
        split; [done|]. split; [done|]. exists content.
        by rewrite lookup_insert_eq.
      * rewrite lookup_insert_ne by done. intros Hj.
        destruct (Hb j fc Hj) as (Hp & Hh & data & Hf & Hs).
        split; [done|]. split; [done|]. exists data. split; [|done].
        rewrite lookup_insert_ne; [done|]. rewrite Hp. intros Heq.
        by apply Id_Path_inj in Heq.
    + apply Put_err_files in HPut as [->|(id & d & Hid & -> & Hw)]; [done|].
      cbn [store set_files files]. intros j fc Hj.
      destruct (Hb j fc Hj) as (Hp & Hh & data & Hf & Hs).
      split; [done|]. split; [done|]. exists data. split; [|done].
      by apply (writeNewFile_keeps _ _ _ _ _ _ _ _ Hw).
  - pose proof (Get_store f id w) as Hs. pose proof (Get_files f id w) as Hf.
    destruct (Get f id w) as [r w']. cbn [snd] in *. by rewrite Hs, Hf.
  - pose proof (Close_store ce c w) as Hs. pose proof (Close_files ce c w) as Hf.
    destruct (FileContent_Close ce c w) as [r w']. cbn [snd] in *. by rewrite Hs, Hf.
  - destruct (cache (store w) !! id) as [cached|] eqn:Hc.
    + destruct (Delete_present f id w cached Hc)
        as (r & w' & HD & Hs & _ & _ & _ & Hgone & Hkept).
      rewrite HD. cbn [snd]. rewrite Hs. cbn [cache].
      intros j fc [Hne Hj]%lookup_delete_Some.
      destruct (Hb j fc Hj) as (Hp & Hh & data & Hf & Hsz).
      split; [done|]. split; [done|]. exists data. split; [|done].
      assert (Hr : r = Returns None \/ r <> Returns None).
      { destruct r as [[e|]| |]; (by left) || (by right). }
      destruct Hr as [Hr|Hr].
      * destruct (Hgone Hr) as [_ ->]. rewrite lookup_delete_ne; [done|].
        destruct (Hb id cached Hc) as (Hpc & _). rewrite Hpc, Hp. intros Heq.
        by apply Id_Path_inj in Heq.
      * by rewrite (Hkept Hr).
    + by rewrite (Delete_absent f id w Hc).
Qed.

Lemma reachable_entries_backed (d : string) (maxBytes : Z) (ops : list op) :
  entries_backed (snd (run ops (newFileStore d maxBytes))).
Proof.
  apply (run_preserves entries_backed); [apply step_entries_backed|].
  intros id fc. cbn. by rewrite lookup_empty.
Qed.

(** X5. After any sequence of calls from the empty store, every entry of
    the index sits under the path of its identifier and its file is on
    disk with as many bytes as its header says; so [Get] of an indexed
    identifier succeeds whenever the system opens the file, and hands out
    that many bytes. *)
Theorem index_is_backed_by_files (d : string) (maxBytes : Z) (ops : list op) :
  let w := snd (run ops (newFileStore d maxBytes)) in
  entries_backed w
  /\ forall id fc,
       cache (store w) !! id = Some fc ->
       exists c w2,
         Get None id w = (Ok (c, header fc), w2)
         /\ Z.of_nat (length (FileContent_ReadAll c)) = Size (header fc).
Proof.
  cbv zeta. pose proof (reachable_entries_backed d maxBytes ops) as Hb.
  split; [done|]. intros id fc Hc.
  destruct (Hb id fc Hc) as (_ & _ & data & Hf & Hs).
  eexists _, _. split; [by apply (Get_present id _ fc data)|].
  by cbn.
Qed.

(** X6. [Put] never changes or removes a file that is already on disk,
    whether it succeeds or fails. *)
Theorem Put_keeps_existing_files (env : PutEnv) (content : list byte)
    (w : World) (p : string) (old : list byte) :
  files w !! p = Some old ->
  files (snd (Put env content w)) !! p = Some old.
Proof.
  intros Hp. destruct (Put env content w) as [[id|e] w'] eqn:HPut; cbn [snd].
  - apply Put_ok in HPut as (_ & _ & Hfree & ->). cbn [files].
    rewrite lookup_insert_ne; [done|]. intros <-. congruence.
  - apply Put_err_files in HPut as [->|(id & d & _ & -> & Hw)]; [done|].
    cbn [set_files files]. by apply (writeNewFile_keeps _ _ _ _ _ _ _ _ Hw).
Qed.

Lemma Put_keeps_existing_files_witness :
  files (snd (Put sample_env sample_content sample_disk)) !! "0a/bc00ff"
  = Some sample_content.
Proof.
  apply (Put_keeps_existing_files sample_env sample_content sample_disk).
  vm_compute; reflexivity.
Defined.

(** [Put] onto a path that is taken is refused by the exclusive create,
    and changes nothing. *)
Lemma Put_occupied (env : PutEnv) (content : list byte) (w : World) (id : Id) :
  hasSpaceFor (Z.of_nat (length content)) (stats (store w)) = true ->
  randomID (rand env) (store w) = Ok id ->
  is_Some (files w !! Id_Path id) ->
  open_fault env = None ->
  Put env content w = (Err (ErrOS EEXIST), w).
Proof.
  intros Hs Hid [old Hold] Ho. unfold Put. cbv zeta. rewrite Hs, Hid. cbn [negb].
  fold (Id_Path id). unfold writeNewFile, os_OpenFile_excl. rewrite Ho, Hold.
  by destruct w.
Qed.

(** X7. When [writeNewFile] has created the file and then the write or
    the close fails, [Put] fails and leaves the file where it is, not
    indexed; a later [Put] that draws the same identifier is refused with
    "file exists" and changes nothing. *)
Theorem failed_write_blocks_path (env : PutEnv) (content : list byte)
    (w : World) (id : Id) :
  hasSpaceFor (Z.of_nat (length content)) (stats (store w)) = true ->
  randomID (rand env) (store w) = Ok id ->
  files w !! Id_Path id = None ->
  open_fault env = None ->
  write_err env <> None \/ (write_n env < length content)%nat
    \/ close_err env <> None ->
  exists e w1,
    Put env content w = (Err e, w1)
    /\ store w1 = store w
    /\ files w1 !! Id_Path id = Some (take (write_n env) content)
    /\ forall env' content',
         hasSpaceFor (Z.of_nat (length content')) (stats (store w1)) = true ->
         randomID (rand env') (store w1) = Ok id ->
         open_fault env' = None ->
         Put env' content' w1 = (Err (ErrOS EEXIST), w1).
Proof.
  intros Hs Hid Hfree Ho Hfail.
  assert (Hw : exists e,
    writeNewFile env (Id_Path id) content (files w)
    = (Some e, <[Id_Path id := take (write_n env) content]> (files w))).
  { unfold writeNewFile, os_OpenFile_excl, file_Write. rewrite Ho, Hfree.
    rewrite insert_insert_eq, length_take.
    destruct (write_err env) as [we|]; cbn [fmap option_fmap option_map];
      [by eexists|].
    destruct (Nat.ltb_spec (write_n env `min` length content) (length content));
      [by eexists|].
    destruct (close_err env) as [ce|]; cbn [fmap option_fmap option_map];
      [by eexists|].
    exfalso. destruct Hfail as [?|[?|?]]; [done|lia|done]. }
  destruct Hw as [e Hw]. exists e. eexists. split.
  { unfold Put. cbv zeta. rewrite Hs, Hid. cbn [negb]. fold (Id_Path id).
    rewrite Hw. reflexivity. }
  cbn [store set_files files]. split; [done|].
  split; [apply lookup_insert_eq|].
  intros env' content' Hs' Hid' Ho'. apply (Put_occupied env' content' _ id); try done.
  cbn [files set_files]. rewrite lookup_insert_eq. by eexists.
Qed.

Lemma failed_write_blocks_path_witness :
  exists e w1,
    Put (mkPutEnv (fun _ => Some sample_id) 1000 None 3 None None)
      sample_content sample_store = (Err e, w1)
    /\ files w1 !! "0a/bc00ff" = Some [x68; x65; x6c]
    /\ Put sample_env sample_content w1 = (Err (ErrOS EEXIST), w1).
Proof.
  destruct (failed_write_blocks_path
              (mkPutEnv (fun _ => Some sample_id) 1000 None 3 None None)
              sample_content sample_store sample_id)
    as (e & w1 & HPut & Hstore & Hfile & Hlater).
  - reflexivity.
  - reflexivity.
  - vm_compute; reflexivity.
  - reflexivity.
  - right. left. cbn. lia.
  - exists e, w1. split; [exact HPut|]. split; [exact Hfile|].
    apply Hlater; [rewrite Hstore | rewrite Hstore |]; reflexivity.
Defined.

(** X8. After any sequence of calls from the empty store, deleting an
    indexed identifier frees it when the file was removed: a [Put] that
    draws it again succeeds.  When the removal failed the file still
    holds the path, and a [Put] that draws the identifier is refused with
    "file exists". *)
Theorem delete_then_put_again (d : string) (maxBytes : Z) (ops : list op)
    (id : Id) (fc : fileCache) :
  let w := snd (run ops (newFileStore d maxBytes)) in
  cache (store w) !! id = Some fc ->
  (exists w1,
      Delete None id w = (Returns None, w1)
      /\ forall env content,
           rand env 0%nat = Some id ->
           benign env (length content) ->
           hasSpaceFor (Z.of_nat (length content)) (stats (store w1)) = true ->
           exists w2, Put env content w1 = (Ok id, w2))
  /\ (forall fault, exists w1,
      Delete (Some fault) id w = (Returns (Some (ErrOS fault)), w1)
      /\ forall env content,
           rand env 0%nat = Some id ->
           open_fault env = None ->
           hasSpaceFor (Z.of_nat (length content)) (stats (store w1)) = true ->
           Put env content w1 = (Err (ErrOS EEXIST), w1)).
Proof.
  cbv zeta. intros Hc.
  pose proof (reachable_entries_backed d maxBytes ops) as Hb.
  pose proof (reachable_guards_untouched d maxBytes ops) as Hg.
  destruct (Hb id fc Hc) as (Hp & _ & data & Hf & _).
  pose proof (Hg id fc Hc) as Hz.
  split.
  - eexists. split.
    + unfold Delete. cbv zeta. rewrite Hc, Hz. cbn [WaitGroup_Wait Z.eqb negb].
      unfold os_Remove. cbn [files set_store]. rewrite Hf. reflexivity.
    + intros env content Hr Hbenign Hs.
      apply Put_succeeds; try done.
      * apply randomID_first; [done|]. cbn [store set_files set_store cache].
        apply lookup_delete_eq.
      * cbn [files set_files]. rewrite <- Hp. apply lookup_delete_eq.
  - intros fault. eexists. split.
    + unfold Delete. cbv zeta. rewrite Hc, Hz. cbn [WaitGroup_Wait Z.eqb negb].
      unfold os_Remove. reflexivity.
    + intros env content Hr Ho Hs. apply (Put_occupied env content _ id); try done.
      * apply randomID_first; [done|]. cbn [store set_store cache].
        apply lookup_delete_eq.
      * cbn [files set_store]. rewrite <- Hp, Hf. by eexists.
Qed.

Lemma delete_then_put_again_witness :
  exists w1 w2,
    Delete None sample_id sample_store_1 = (Returns None, w1)
    /\ Put sample_env sample_content w1 = (Ok sample_id, w2).
Proof.
  destruct (delete_then_put_again "data" 100 [OpPut sample_env sample_content]
              sample_id (mkFileCache 0 (genHeader sample_id 1000 5) "0a/bc00ff"))
    as [(w1 & HD & Hagain) _].
  - vm_compute; reflexivity.
  - destruct (Hagain sample_env sample_content) as [w2 HP].
    + reflexivity.
    + repeat split; try reflexivity. cbn. lia.
    + pose proof (f_equal snd HD) as Hw1. cbn [snd] in Hw1. rewrite <- Hw1.
      vm_compute; reflexivity.
    + exists w1, w2. split; [exact HD | exact HP].
Defined.

(** X9. A handle that [Get] returned closes once: [Close] takes its guard
    back to zero and leaves the store alone, and a second [Close] of the
    same handle panics on the negative counter. *)
Theorem handle_closes_once (d : string) (maxBytes : Z) (ops : list op)
    (fault cerr : option errno) (id : Id) (c : FileContent) (h : Header)
    (w2 : World) :
  let w := snd (run ops (newFileStore d maxBytes)) in
  Get fault id w = (Ok (c, h), w2) ->
  exists w3,
    FileContent_Close cerr c w2 = (Returns (ErrOS <$> cerr), w3)
    /\ guards w3 !! reading_ptr c = Some 0
    /\ store w3 = store w /\ files w3 = files w
    /\ forall cerr', FileContent_Close cerr' c w3 = (Panics, w3).
Proof.
  cbv zeta. intros HGet.
  pose proof (reachable_guards_untouched d maxBytes ops) as Hg.
  apply Get_ok in HGet as (cached & Hc & _ & _ & _ & ->).
  rewrite (Hg id cached Hc). eexists. split.
  - unfold FileContent_Close. cbv zeta. cbn [guards set_guards].
    rewrite lookup_insert_eq. cbn. reflexivity.
  - unfold set_guards. cbn [guards store files]. rewrite lookup_insert_eq.
    repeat split; try done.
    intros cerr'. unfold FileContent_Close, set_guards. cbv zeta. cbn [guards].
    rewrite lookup_insert_eq. reflexivity.
Qed.

Lemma handle_closes_once_witness :
  exists w3,
    FileContent_Close None (mkFileContent sample_content 1) sample_store_2
      = (Returns None, w3)
    /\ FileContent_Close None (mkFileContent sample_content 1) w3 = (Panics, w3).
Proof.
  destruct (handle_closes_once "data" 100 [OpPut sample_env sample_content]
              None None sample_id (mkFileContent sample_content 1)
              (genHeader sample_id 1000 5) sample_store_2)
    as (w3 & HC & _ & _ & _ & Hagain).
  - vm_compute; reflexivity.
  - exists w3. split; [exact HC | apply Hagain].
Defined.

(** X10. Readers do not share a guard: a second [Get], of the same or of
    another identifier, counts at a new address and leaves the first
    handle's counter, the index and the disk as they were. *)
Theorem readers_have_their_own_guards (f1 f2 : option errno) (id1 id2 : Id)
    (c1 c2 : FileContent) (h1 h2 : Header) (w w1 w2 : World) :
  Get f1 id1 w = (Ok (c1, h1), w1) ->
  Get f2 id2 w1 = (Ok (c2, h2), w2) ->
  reading_ptr c1 <> reading_ptr c2
  /\ guards w2 !! reading_ptr c1 = guards w1 !! reading_ptr c1
  /\ is_Some (guards w1 !! reading_ptr c1)
  /\ store w2 = store w /\ files w2 = files w.
Proof.
  intros (cached1 & _ & _ & _ & Hp1 & ->)%Get_ok (cached2 & _ & _ & _ & Hp2 & ->)%Get_ok.
  cbn [guards set_guards store files] in *.
  assert (Hne : reading_ptr c1 <> reading_ptr c2).
  { intros Heq. rewrite Hp2 in Heq.
    apply (is_fresh (dom (<[reading_ptr c1 := reading cached1 + 1]> (guards w)))).
    rewrite <- Heq. apply elem_of_dom. rewrite lookup_insert_eq. by eexists. }
  split; [done|]. rewrite lookup_insert_ne by done.
  rewrite lookup_insert_eq. repeat split; done.
Qed.

Lemma readers_have_their_own_guards_witness :
  exists c1 c2 h1 h2 w1 w2,
    Get None sample_id sample_store_1 = (Ok (c1, h1), w1)
    /\ Get None sample_id w1 = (Ok (c2, h2), w2)
    /\ reading_ptr c1 <> reading_ptr c2.
Proof.
  exists (mkFileContent sample_content 1), (mkFileContent sample_content 2),
    (genHeader sample_id 1000 5), (genHeader sample_id 1000 5),
    sample_store_2, (snd (Get None sample_id sample_store_2)).
  assert (H1 : Get None sample_id sample_store_1
               = (Ok (mkFileContent sample_content 1, genHeader sample_id 1000 5),
                  sample_store_2)) by (vm_compute; reflexivity).
  assert (H2 : Get None sample_id sample_store_2
               = (Ok (mkFileContent sample_content 2, genHeader sample_id 1000 5),
                  snd (Get None sample_id sample_store_2)))
    by (vm_compute; reflexivity).
  split; [exact H1|]. split; [exact H2|].
  exact (proj1 (readers_have_their_own_guards _ _ _ _ _ _ _ _ _ _ _ H1 H2)).
Defined.

(* --------------------------------------------------------------------- *)
(** ** Recovery, file by file *)
(* --------------------------------------------------------------------- *)


(** X11. [Recover] fails without a trace: whenever it returns an error
    (one handed in by the walk, a path that is not a directory and a
    file, a name that is not an identifier, a removal that failed, a
    full quota) the store, the disk and the timers are as before; and a
    directory is passed over. *)
Theorem Recover_error_changes_nothing (cfg : Config) (fault : option errno)
    (p : string) (fi : FileInfo) (err : option error) (w : World) :
  (forall e w', Recover cfg fault p fi err w = (Some e, w') -> w' = w)
  /\ (forall e, err = Some e -> Recover cfg fault p fi err w = (Some e, w))
  /\ (err = None -> fi_IsDir fi = true -> Recover cfg fault p fi err w = (None, w)).
Proof.
  split; [|split].
  - intros e w'. unfold Recover.
    destruct err; [by intros [= _ <-]|].
    destruct (fi_IsDir fi); [intros [=]|].
    destruct (Split p Separator) as [|p0 [|p1 [|p2 rest]]];
      try by intros [= _ <-].
    destruct (IDFromString _) as [id|e']; [|by intros [= _ <-]].
    cbv zeta. destruct (_ && _).
    + destruct (os_Remove _ _ _); [intros [=]|by intros [= _ <-]].
    + destruct (hasSpaceFor _ _); cbn [negb]; [intros [=]|by intros [= _ <-]].
  - by intros e ->.
  - intros -> Hd. unfold Recover. by rewrite Hd.
Qed.

Lemma Recover_error_changes_nothing_witness :
  Recover (mkConfig (12 * Hour) sample_start) None "0a/bc00ff"
    (mkFileInfo false sample_start 101) None sample_disk
  = (Some ErrReachedMax, sample_disk).
Proof.
  assert (H : Recover (mkConfig (12 * Hour) sample_start) None "0a/bc00ff"
                (mkFileInfo false sample_start 101) None sample_disk
              = (Some ErrReachedMax,
                 snd (Recover (mkConfig (12 * Hour) sample_start) None "0a/bc00ff"
                        (mkFileInfo false sample_start 101) None sample_disk)))
    by (vm_compute; reflexivity).
  pose proof (proj1 (Recover_error_changes_nothing _ _ _ _ _ _) _ _ H) as Hw.
  rewrite H, Hw. reflexivity.
Defined.



Lemma sum_sizes_replace (c : gmap Id fileCache) (id : Id) (old new : fileCache) :
  c !! id = Some old ->
  sum_sizes (<[id := new]> c) = sum_sizes c - Size (header old) + Size (header new).
Proof.
  intros Hold. rewrite <- insert_delete_eq.
  rewrite sum_sizes_insert by apply lookup_delete_eq.
  rewrite (sum_sizes_delete c id old Hold). lia.
Qed.

(** X13. [Recover] keeps the quota in step with the index when the
    identifier of the file is not indexed yet.  When it is (two file
    names spell the same identifier), the new entry replaces the old one
    in the index while both sizes stay counted: the running total then
    exceeds the sum over the index by the size of the replaced entry. *)
Theorem Recover_quota (cfg : Config) (fault : option errno) (p p0 p1 : string)
    (fi : FileInfo) (w : World) (id : Id) :
  fi_IsDir fi = false ->
  Split p Separator = [p0; p1] ->
  IDFromString (p0 ++ p1) = Ok id ->
  quota_conserved w ->
  let w' := snd (Recover cfg fault p fi None w) in
  (cache (store w) !! id = None -> quota_conserved w')
  /\ (forall old,
        cache (store w) !! id = Some old ->
        fst (Recover cfg fault p fi None w) = None ->
        expired cfg fi = false ->
        storage (stats (store w'))
        = sum_sizes (cache (store w')) + Size (header old)).
Proof.
  intros Hd Hs Hid Hq. cbv zeta. unfold quota_conserved in *.
  rewrite (Recover_file cfg fault p p0 p1 fi w id Hd Hs Hid). cbv zeta.
  fold (expired cfg fi). split.
  - intros Hfree. destruct (expired cfg fi).
    + by destruct (os_Remove _ _ _).
    + destruct (hasSpaceFor _ _); [|done]. cbn [snd store stats cache].
      rewrite sum_sizes_insert by done. cbn. lia.
  - intros old Hold Hok Hexp. rewrite Hexp in *.
    destruct (hasSpaceFor _ _); [|done].
    cbn [snd store stats cache]. rewrite (sum_sizes_replace _ _ old) by done.
    cbn. lia.
Qed.

Lemma Recover_quota_witness :
  quota_conserved
    (snd (Recover (mkConfig (12 * Hour) sample_start) None "0a/bc00ff"
            (mkFileInfo false sample_start 5) None sample_disk)).
Proof.
  apply (proj1 (Recover_quota (mkConfig (12 * Hour) sample_start) None
                  "0a/bc00ff" "0a" "bc00ff" (mkFileInfo false sample_start 5)
                  sample_disk sample_id eq_refl eq_refl eq_refl eq_refl)).
  reflexivity.
Defined.

(** X14. Under a positive lifetime every deletion [Recover] schedules
    has a delay of zero or more: a file it keeps is not past its death
    time. *)
Theorem Recover_delay_not_negative (cfg : Config) (fault : option errno)
    (p : string) (fi : FileInfo) (err : option error) (w : World)
    (id : Id) (after : Z) :
  0 < lifeTime cfg ->
  (id, after) ∈ timers (snd (Recover cfg fault p fi err w)) ->
  (id, after) ∈ timers w \/ 0 <= after.
Proof.
  intros Hlife. unfold Recover.
  destruct err; [by left|].
  destruct (fi_IsDir fi); [by left|].
  destruct (Split p Separator) as [|p0 [|p1 [|p2 rest]]]; try by left.
  destruct (IDFromString _) as [id'|e']; [|by left].
  cbv zeta. unfold Time_Before, Time_Add.
  destruct (Z.ltb_spec 0 (lifeTime cfg)); [|lia]. cbn [andb].
  destruct (Z.ltb_spec (fi_ModTime fi + lifeTime cfg) (startTime cfg)) as [|Hlive].
  - destruct (os_Remove _ _ _); by left.
  - destruct (hasSpaceFor _ _); cbn [negb]; [|by left].
    cbn [snd SetupPasteDeletion timers set_store].
    rewrite elem_of_app, list_elem_of_singleton. intros [Hin|[= _ ->]]; [by left|].
    right. unfold Time_Sub, maxDuration, minDuration.
    destruct (Z.ltb_spec (2 ^ 63 - 1) (fi_ModTime fi + lifeTime cfg - startTime cfg));
      [lia|].
    destruct (Z.ltb_spec (fi_ModTime fi + lifeTime cfg - startTime cfg) (- 2 ^ 63));
      lia.
Qed.

Lemma Recover_delay_not_negative_witness :
  (sample_id, 11 * Hour) ∈ timers sample_disk \/ 0 <= 11 * Hour.
Proof.
  apply (Recover_delay_not_negative (mkConfig (12 * Hour) sample_start) None
           "0a/bc00ff" (mkFileInfo false (sample_start - Hour) 5) None
           sample_disk sample_id (11 * Hour)).
  - reflexivity.
  - vm_compute. apply list_elem_of_here.
Defined.

(** X27. With a lifetime of zero [Recover] makes no age check and
    removes no file: a regular file whose path names an identifier is
    indexed, whatever its age, when the quota admits its size, and is
    handed to [SetupPasteDeletion] with the modification time minus the
    start time as the delay, which is below zero for a file older than
    the start; when the quota does not admit it, [Recover] returns
    [ErrReachedMax] and changes nothing. *)
Theorem Recover_zero_lifetime_no_age_check (cfg : Config) (fault : option errno)
    (p p0 p1 : string) (fi : FileInfo) (w : World) (id : Id) :
  lifeTime cfg = 0 ->
  fi_IsDir fi = false ->
  Split p Separator = [p0; p1] ->
  IDFromString (p0 ++ p1) = Ok id ->
  (hasSpaceFor (fi_Size fi) (stats (store w)) = true ->
     exists w',
       Recover cfg fault p fi None w = (None, w')
       /\ cache (store w') !! id
          = Some (mkFileCache 0 (genHeader id (fi_ModTime fi) (fi_Size fi)) p)
       /\ timers w'
          = (timers w ++ [(id, Time_Sub (fi_ModTime fi) (startTime cfg))])%list)
  /\ (hasSpaceFor (fi_Size fi) (stats (store w)) = false ->
      Recover cfg fault p fi None w = (Some ErrReachedMax, w))
  /\ files (snd (Recover cfg fault p fi None w)) = files w
  /\ (fi_ModTime fi < startTime cfg ->
      Time_Sub (fi_ModTime fi) (startTime cfg) < 0).
Proof.
  intros Hzero Hd Hs Hid.
  rewrite (Recover_file cfg fault p p0 p1 fi w id Hd Hs Hid). cbv zeta.
  rewrite Hzero. cbn [Z.ltb Z.compare andb]. unfold Time_Add. rewrite Z.add_0_r.
  split; [|split; [|split]].
  - intros Hspace. rewrite Hspace. eexists. split; [done|].
    cbn [store cache timers]. by rewrite lookup_insert_eq.
  - intros Hfull. by rewrite Hfull.
  - by destruct (hasSpaceFor _ _).
  - intros Hold. unfold Time_Sub.
    assert (Hmax : 0 < maxDuration) by reflexivity.
    assert (Hmin : minDuration < 0) by reflexivity.
    destruct (Z.ltb_spec maxDuration (fi_ModTime fi - startTime cfg)); [lia|].
    destruct (Z.ltb_spec (fi_ModTime fi - startTime cfg) minDuration); lia.
Qed.

Lemma Recover_zero_lifetime_no_age_check_witness :
  exists w',
    Recover (mkConfig 0 sample_start) None "0a/bc00ff"
      (mkFileInfo false (sample_start - 13 * Hour) 5) None sample_disk = (None, w')
    /\ cache (store w') !! sample_id
       = Some (mkFileCache 0 (genHeader sample_id (sample_start - 13 * Hour) 5)
                 "0a/bc00ff")
    /\ timers w' = [(sample_id, Time_Sub (sample_start - 13 * Hour) sample_start)].
Proof.
  apply (Recover_zero_lifetime_no_age_check (mkConfig 0 sample_start) None
           "0a/bc00ff" "0a" "bc00ff"
           (mkFileInfo false (sample_start - 13 * Hour) 5) sample_disk sample_id);
    reflexivity.
Defined.

(* --------------------------------------------------------------------- *)
(** ** The earlier server: timers and recovery *)
(* --------------------------------------------------------------------- *)

(** [n] firings of the timer of [id], each failing or not as the disk
    says. *)
Lemma EndLife_absent (id : Id) (w : Legacy.World) :
  Legacy.files w !! Id_Path id = None ->
  Legacy.EndLife None id w = Legacy.EndLifeAfter id (2 * Minute) w.
Proof. intros Hf. unfold Legacy.EndLife, os_Remove. by rewrite Hf. Qed.

(** X15. When [id.EndLife()] removes the file it also drops the entry
    from the index, arms no timer and touches no other paste; when it
    fires again, the file being gone, it drops nothing and arms a timer
    of two minutes. *)
Theorem EndLife_removes_paste (id : Id) (data : list byte) (w : Legacy.World) :
  Legacy.files w !! Id_Path id = Some data ->
  let w' := Legacy.EndLife None id w in
  Legacy.files w' !! Id_Path id = None
  /\ Legacy.m w' !! id = None
  /\ Legacy.timers w' = Legacy.timers w
  /\ (forall id', id' <> id ->
        Legacy.m w' !! id' = Legacy.m w !! id'
        /\ Legacy.files w' !! Id_Path id' = Legacy.files w !! Id_Path id')
  /\ Legacy.EndLife None id w' = Legacy.EndLifeAfter id (2 * Minute) w'.
Proof.
  intros Hf. cbv zeta.
  assert (HE : Legacy.EndLife None id w
               = Legacy.mkWorld (delete id (Legacy.m w))
                   (delete (Id_Path id) (Legacy.files w))
                   (Legacy.timers w) (Legacy.spawned w)).
  { unfold Legacy.EndLife, os_Remove. by rewrite Hf. }
  rewrite HE. cbn [Legacy.files Legacy.m Legacy.timers].
  rewrite !lookup_delete_eq. repeat split; try done.
  - by rewrite lookup_delete_ne.
  - rewrite lookup_delete_ne; [done|]. intros Heq. by apply Id_Path_inj in Heq.
  - apply EndLife_absent. cbn [Legacy.files]. apply lookup_delete_eq.
Qed.

Lemma EndLife_removes_paste_witness :
  Legacy.files (Legacy.EndLife None sample_id sample_legacy) !! "0a/bc00ff" = None
  /\ Legacy.m (Legacy.EndLife None sample_id sample_legacy) !! sample_id = None.
Proof.
  destruct (EndLife_removes_paste sample_id sample_content sample_legacy)
    as (Hf & Hm & _).
  - vm_compute; reflexivity.
  - split; [exact Hf | exact Hm].
Defined.

(** X16. [walkFunc] never schedules a deletion before now nor later than
    a full lifetime from now. *)
Theorem walkFunc_delay_within_lifetime (detect : list byte -> string)
    (cfg : Config) (now : Z) (fault : option errno) (p : string)
    (fi : FileInfo) (err : option error) (w : Legacy.World)
    (id : Id) (after : Z) :
  0 <= lifeTime cfg <= maxDuration ->
  (id, after)
    ∈ Legacy.timers (snd (Legacy.walkFunc detect cfg now fault p fi err w)) ->
  (id, after) ∈ Legacy.timers w \/ 0 <= after <= lifeTime cfg.
Proof.
  intros [Hlo Hhi]. unfold Legacy.walkFunc.
  destruct err; [by left|].
  destruct (fi_IsDir fi); [by left|].
  destruct (IdFromPath p) as [id'|e]; [|by left].
  cbv zeta. unfold Time_Before, Time_After, Time_Add.
  destruct (Z.ltb_spec (fi_ModTime fi + lifeTime cfg) now) as [|Hlive]; [by left|].
  destruct (os_Open _ _ _) as [data|e]; [|by left].
  destruct (Legacy.read_head data) as [head|e]; [|by left].
  cbn [snd Legacy.EndLifeAfter Legacy.timers].
  rewrite elem_of_app, list_elem_of_singleton. intros [Hin|[= _ ->]]; [by left|].
  right.
  destruct (Z.ltb_spec (now + lifeTime cfg) (fi_ModTime fi + lifeTime cfg)); [lia|].
  unfold Time_Sub, maxDuration, minDuration in *.
  destruct (Z.ltb_spec (2 ^ 63 - 1) (fi_ModTime fi + lifeTime cfg - now)); [lia|].
  destruct (Z.ltb_spec (fi_ModTime fi + lifeTime cfg - now) (- 2 ^ 63)); lia.
Qed.

Lemma walkFunc_delay_within_lifetime_witness :
  (sample_id, 12 * Hour) ∈ Legacy.timers sample_legacy
  \/ 0 <= 12 * Hour <= lifeTime (mkConfig (12 * Hour) sample_start).
Proof.
  apply (walkFunc_delay_within_lifetime sample_detect
           (mkConfig (12 * Hour) sample_start) sample_start None "0a/bc00ff"
           (mkFileInfo false (sample_start + Hour) 5) None sample_legacy
           sample_id (12 * Hour)).
  - split; vm_compute; discriminate.
  - vm_compute. apply list_elem_of_here.
Defined.

(** An empty file stops [walkFunc] with [io.EOF]. *)
Lemma walkFunc_empty_file (detect : list byte -> string) (cfg : Config)
    (now : Z) (p : string) (fi : FileInfo) (w : Legacy.World) (id : Id) :
  fi_IsDir fi = false -> IdFromPath p = Ok id ->
  Legacy.files w !! p = Some [] ->
  now <= Time_Add (fi_ModTime fi) (lifeTime cfg) ->
  Legacy.walkFunc detect cfg now None p fi None w = (Some ErrEOF, w).
Proof.
  intros Hd Hid Hf Hlive. unfold Legacy.walkFunc.
  rewrite Hd, Hid. cbv zeta. unfold Time_Before, Time_Add in *.
  destruct (Z.ltb_spec (fi_ModTime fi + lifeTime cfg) now); [lia|].
  unfold os_Open. by rewrite Hf.
Qed.

(** X17. [walkFunc] fails without a trace: whenever it returns an error
    (one handed in by the walk, a path that names no identifier, a file
    that cannot be opened, or has nothing to read) the index, the disk
    and the timers are as before.  For a file past its death time it
    only starts [id.EndLife()]. *)
Theorem walkFunc_error_changes_nothing (detect : list byte -> string)
    (cfg : Config) (now : Z) (fault : option errno) (p : string)
    (fi : FileInfo) (err : option error) (w : Legacy.World) :
  (forall e w',
      Legacy.walkFunc detect cfg now fault p fi err w = (Some e, w') -> w' = w)
  /\ (forall id,
      err = None -> fi_IsDir fi = false -> IdFromPath p = Ok id ->
      Legacy.files w !! p = Some [] -> fault = None ->
      now <= Time_Add (fi_ModTime fi) (lifeTime cfg) ->
      Legacy.walkFunc detect cfg now fault p fi err w = (Some ErrEOF, w)).
Proof.
  split.
  - intros e w'. unfold Legacy.walkFunc.
    destruct err; [by intros [= _ <-]|].
    destruct (fi_IsDir fi); [intros [=]|].
    destruct (IdFromPath p) as [id|e']; [|by intros [= _ <-]].
    cbv zeta. destruct (Time_Before _ _); [intros [=]|].
    destruct (os_Open _ _ _) as [data|e']; [|by intros [= _ <-]].
    destruct (Legacy.read_head data) as [head|e']; [intros [=]|by intros [= _ <-]].
  - intros id -> Hd Hid Hf -> Hlive. by apply (walkFunc_empty_file _ _ _ _ _ _ id).
Qed.

Lemma walkFunc_error_changes_nothing_witness :
  Legacy.walkFunc sample_detect (mkConfig (12 * Hour) sample_start) sample_start
    None "0a/bc00ff" (mkFileInfo false sample_start 0) None
    (Legacy.mkWorld ∅ {[ "0a/bc00ff" := [] ]} [] [])
  = (Some ErrEOF, Legacy.mkWorld ∅ {[ "0a/bc00ff" := [] ]} [] []).
Proof.
  apply (proj2 (walkFunc_error_changes_nothing sample_detect
                  (mkConfig (12 * Hour) sample_start) sample_start None
                  "0a/bc00ff" (mkFileInfo false sample_start 0) None
                  (Legacy.mkWorld ∅ {[ "0a/bc00ff" := [] ]} [] [])) sample_id);
    try reflexivity.
  vm_compute; discriminate.
Defined.

(* --------------------------------------------------------------------- *)
(** ** The earlier server: requests *)
(* --------------------------------------------------------------------- *)

Section Requests.

Variable detect : list byte -> string.
Variable site : string.
Variable life : Duration.

Lemma RandomId_unused (rnd : nat -> option Id) (w : Legacy.World) (id : Id) :
  Legacy.RandomId rnd w = Ok id -> Legacy.m w !! id = None.
Proof.
  intros Hid. pose proof (RandomId_from_spec randTries 0 rnd (Legacy.m w)) as Hs.
  unfold Legacy.RandomId in Hid. rewrite Hid in Hs. by destruct Hs.
Qed.

(** What a POST has done when it answers with the address of a paste. *)
Lemma handlePost_created (env : LegacyHttp.Env) (r : LegacyHttp.Request)
    (w w' : Legacy.World) (line : string) :
  LegacyHttp.handlePost detect site life env r w = (LegacyHttp.Created line, w') ->
  exists id content rest,
    LegacyHttp.Form_paste r = Some (content :: rest)
    /\ content <> []
    /\ Legacy.m w !! id = None
    /\ Legacy.files w !! Id_Path id = None
    /\ line = site ++ "/" ++ Id_String id ++ String (ascii_of_nat 10) EmptyString
    /\ w' = Legacy.mkWorld
              (<[id := Legacy.GenPasteInfo detect id (LegacyHttp.now env) content]>
                 (Legacy.m w))
              (<[Id_Path id := take (LegacyHttp.write_n env) content]> (Legacy.files w))
              (Legacy.timers w ++ [(id, life)])%list (Legacy.spawned w).
Proof.
  unfold LegacyHttp.handlePost.
  destruct (LegacyHttp.parse_err r); [intros [=]|].
  destruct (LegacyHttp.Form_paste r) as [[|content rest]|];
    [intros [=] | | intros [=]].
  destruct (0 <? length content)%nat eqn:Hlen; [|intros [=]].
  destruct (Legacy.RandomId _ _) as [id|e] eqn:Hid; [|intros [=]].
  destruct (path_Split (Id_Path id)) as [dir file].
  destruct (LegacyHttp.mkdir_fault env); [intros [=]|].
  unfold os_OpenFile_excl, file_Write. cbn [Legacy.EndLifeAfter Legacy.files].
  destruct (LegacyHttp.open_fault env); [intros [=]|].
  destruct (Legacy.files w !! Id_Path id) eqn:Hf; [intros [=]|].
  destruct (LegacyHttp.write_err env); cbn [fmap option_fmap option_map];
    [intros [=]|].
  intros [= <- <-]. exists id, content, rest.
  split; [done|]. split; [by intros ->|].
  split; [by apply (RandomId_unused _ _ _ Hid)|]. split; [done|]. split; [done|].
  cbn [Legacy.m Legacy.files Legacy.timers Legacy.spawned].
  by rewrite insert_insert_eq.
Qed.

(** Every request leaves the files that exist as they are, and a POST
    that does not answer with an address leaves the index as it is. *)
Lemma handler_keeps (env : LegacyHttp.Env) (r : LegacyHttp.Request)
    (w : Legacy.World) :
  (forall p old, Legacy.files w !! p = Some old ->
      Legacy.files (snd (LegacyHttp.handler detect site life env r w)) !! p = Some old)
  /\ ((forall line, fst (LegacyHttp.handler detect site life env r w) <> LegacyHttp.Created line) ->
      Legacy.m (snd (LegacyHttp.handler detect site life env r w)) = Legacy.m w).
Proof.
  unfold LegacyHttp.handler.
  destruct (String.eqb (LegacyHttp.Method r) "GET").
  { assert (HG : snd (LegacyHttp.handleGet env r w) = w); [|by rewrite HG].
    unfold LegacyHttp.handleGet.
    repeat (match goal with
            | |- context [if ?b then _ else _] => destruct b
            | |- context [match ?x with _ => _ end] => destruct x
            end; try done). }
  destruct (String.eqb (LegacyHttp.Method r) "POST"); [|done].
  unfold LegacyHttp.handlePost.
  destruct (LegacyHttp.parse_err r); [done|].
  destruct (LegacyHttp.Form_paste r) as [[|content rest]|]; try done.
  destruct (0 <? length content)%nat; [|done].
  destruct (Legacy.RandomId _ _) as [id|e]; [|done].
  destruct (path_Split (Id_Path id)) as [dir file].
  destruct (LegacyHttp.mkdir_fault env); [done|].
  unfold os_OpenFile_excl, file_Write. cbn [Legacy.EndLifeAfter Legacy.files].
  destruct (LegacyHttp.open_fault env); [done|].
  destruct (Legacy.files w !! Id_Path id) eqn:Hf; [done|].
  assert (Hkeep : forall p old (x y : list byte),
    Legacy.files w !! p = Some old ->
    <[Id_Path id := x]> (<[Id_Path id := y]> (Legacy.files w)) !! p = Some old).
  { intros p old x y Hp. rewrite !lookup_insert_ne; [done|..]; congruence. }
  destruct (LegacyHttp.write_err env); cbn [fmap option_fmap option_map fst snd];
    cbn [Legacy.m Legacy.files].
  - split; [intros p old Hp; by apply Hkeep|done].
  - split; [intros p old Hp; by apply Hkeep|].
    intros Hnot. by destruct (Hnot _ eq_refl).
Qed.

Lemma get_path_is_no_page (id : Id) :
  String.eqb ("/" ++ Id_String id) "/" = false
  /\ String.eqb ("/" ++ Id_String id) "/form" = false.
Proof.
  split; apply String.eqb_neq; intros H; apply (f_equal String.length) in H;
    cbn [String.append String.length] in H; unfold Id_String in H;
    rewrite EncodeToString_length in H; discriminate H.
Qed.

(** What a GET for the address of [id] answers. *)
Lemma handleGet_id (env : LegacyHttp.Env) (inm : string) (id : Id)
    (w : Legacy.World) :
  LegacyHttp.handler detect site life env (LegacyHttp.mkRequest "GET" ("/" ++ Id_String id) inm None None) w
  = match Legacy.m w !! id with
    | None => (LegacyHttp.HttpError LegacyHttp.pasteNotFound LegacyHttp.StatusNotFound, w)
    | Some info =>
        if negb (String.eqb inm EmptyString)
           && (String.eqb (Legacy.Etag info) inm || String.eqb inm "*")
        then (LegacyHttp.NotModified, w)
        else
          match os_Open (LegacyHttp.open_fault env) (Id_Path id) (Legacy.files w) with
          | Err _ => (LegacyHttp.HttpError LegacyHttp.unknownError
                        LegacyHttp.StatusInternalServerError, w)
          | Ok data =>
              (LegacyHttp.ServeContent (Legacy.Etag info) (Legacy.ContentType info)
                 (Legacy.ModTime info) data, w)
          end
    end.
Proof.
  destruct (get_path_is_no_page id) as [H1 H2].
  unfold LegacyHttp.handler, LegacyHttp.handleGet.
  cbn [LegacyHttp.Method LegacyHttp.URLPath LegacyHttp.If_None_Match String.eqb
       Ascii.eqb Bool.eqb andb].
  rewrite H1, H2. cbn [String.append]. by rewrite IdFromString_Id_String.
Qed.

(** X18. A paste that was posted is served: when a POST answers with an
    address and the system took the whole write, a plain GET of that
    address serves the posted bytes, stamped with the time of the POST
    and with the tag and content type made from it. *)
Theorem post_then_get (env env' : LegacyHttp.Env) (content : list byte)
    (w w' : Legacy.World) (line : string) :
  LegacyHttp.handler detect site life env (LegacyHttp.post_request content) w = (LegacyHttp.Created line, w') ->
  (length content <= LegacyHttp.write_n env)%nat ->
  LegacyHttp.open_fault env' = None ->
  exists id,
    line = site ++ "/" ++ Id_String id ++ String (ascii_of_nat 10) EmptyString
    /\ LegacyHttp.handler detect site life env' (LegacyHttp.get_request ("/" ++ Id_String id)) w'
       = (LegacyHttp.ServeContent
            (Legacy.Etag (Legacy.GenPasteInfo detect id (LegacyHttp.now env) content))
            (Legacy.ContentType (Legacy.GenPasteInfo detect id (LegacyHttp.now env) content))
            (LegacyHttp.now env) content, w').
Proof.
  intros HPost Hwhole Hopen.
  change (LegacyHttp.handler detect site life env (LegacyHttp.post_request content) w)
    with (LegacyHttp.handlePost detect site life env (LegacyHttp.post_request content) w) in HPost.
  apply handlePost_created in HPost
    as (id & c & rest & [= <- <-] & _ & _ & _ & -> & ->).
  exists id. split; [done|].
  unfold LegacyHttp.get_request. rewrite handleGet_id.
  cbn [Legacy.m Legacy.files]. rewrite lookup_insert_eq.
  cbn [String.eqb negb andb]. unfold os_Open. rewrite Hopen, lookup_insert_eq.
  by rewrite take_ge.
Qed.

(** X19. No request changes or removes a file that is on disk, and a
    POST that does not answer with an address adds nothing to the
    index. *)
Theorem requests_keep_files (env : LegacyHttp.Env) (r : LegacyHttp.Request)
    (w : Legacy.World) (p : string) (old : list byte) :
  Legacy.files w !! p = Some old ->
  Legacy.files (snd (LegacyHttp.handler detect site life env r w)) !! p = Some old
  /\ ((forall line, fst (LegacyHttp.handler detect site life env r w) <> LegacyHttp.Created line) ->
      Legacy.m (snd (LegacyHttp.handler detect site life env r w)) = Legacy.m w).
Proof.
  intros Hp. destruct (handler_keeps env r w) as [Hfiles Hm].
  split; [by apply Hfiles | exact Hm].
Qed.

(** X20. A POST arms the timer of the paste before it creates the file.
    When the creation then fails on a fault of the system, the reply is
    an internal error, nothing is indexed or written, and the timer
    stays: each time it fires, [id.EndLife()] finds no file, removes
    nothing and arms the next timer. *)
Theorem failed_post_leaves_timer (env : LegacyHttp.Env) (content : list byte)
    (w : Legacy.World) (id : Id) (e : errno) :
  content <> [] ->
  Legacy.RandomId (LegacyHttp.rand env) w = Ok id ->
  LegacyHttp.mkdir_fault env = None ->
  LegacyHttp.open_fault env = Some e ->
  Legacy.files w !! Id_Path id = None ->
  let w1 := Legacy.EndLifeAfter id life w in
  LegacyHttp.handler detect site life env (LegacyHttp.post_request content) w
  = (LegacyHttp.HttpError LegacyHttp.unknownError
       LegacyHttp.StatusInternalServerError, w1)
  /\ Legacy.EndLife None id w1 = Legacy.EndLifeAfter id (2 * Minute) w1.
Proof.
  intros Hne Hid Hmk Hopen Hfree. cbv zeta. split.
  - unfold LegacyHttp.handler, LegacyHttp.handlePost, LegacyHttp.post_request.
    cbn [LegacyHttp.Method LegacyHttp.parse_err LegacyHttp.Form_paste String.eqb
         Ascii.eqb Bool.eqb andb].
    destruct content as [|b content]; [done|]. cbn [length Nat.ltb Nat.leb].
    rewrite Hid. destruct (path_Split (Id_Path id)). rewrite Hmk.
    unfold os_OpenFile_excl. by rewrite Hopen.
  - by apply EndLife_absent.
Qed.

Lemma step_index_backed (a : LegacyHttp.action) (w : Legacy.World) :
  LegacyHttp.index_backed w ->
  LegacyHttp.index_backed (LegacyHttp.act detect site life a w).
Proof.
  unfold LegacyHttp.index_backed. intros Hb. destruct a as [env r|fault id].
  - cbn [LegacyHttp.act].
    destruct (LegacyHttp.handler detect site life env r w) as [resp w'] eqn:Hh.
    pose proof (handler_keeps env r w) as [Hfiles Hm]. rewrite Hh in Hfiles, Hm.
    cbn [fst snd] in *.
    assert (Hc : (exists line, resp = LegacyHttp.Created line)
                 \/ forall line, resp <> LegacyHttp.Created line).
    { destruct resp; (by right) || (left; by eexists). }
    destruct Hc as [[line ->]|Hnot].
    + unfold LegacyHttp.handler in Hh.
      destruct (String.eqb (LegacyHttp.Method r) "GET").
      { exfalso. revert Hh. unfold LegacyHttp.handleGet.
        repeat (match goal with
                | |- context [if ?b then _ else _] => destruct b
                | |- context [match ?x with _ => _ end] => destruct x
                end; try (by intros [=])). }
      destruct (String.eqb (LegacyHttp.Method r) "POST"); [|by inversion Hh].
      apply handlePost_created in Hh
        as (id & c & rest & _ & _ & _ & _ & _ & ->).
      cbn [Legacy.m Legacy.files]. intros j info.
      destruct (decide (id = j)) as [->|Hne].
      * intros _. rewrite lookup_insert_eq. by eexists.
      * rewrite lookup_insert_ne by done. intros Hj.
        destruct (Hb j info Hj) as [data Hd].
        rewrite lookup_insert_ne; [by eexists|]. intros Heq.
        by apply Id_Path_inj in Heq.
    + rewrite (Hm Hnot). intros j info Hj.
      destruct (Hb j info Hj) as [data Hd]. exists data. by apply Hfiles.
  - cbn [LegacyHttp.act]. unfold Legacy.EndLife.
    destruct (os_Remove fault (Id_Path id) (Legacy.files w)) as [d|e] eqn:Hrm.
    + cbn [Legacy.m Legacy.files]. intros j info [Hne Hj]%lookup_delete_Some.
      destruct (Hb j info Hj) as [data Hd]. exists data.
      unfold os_Remove in Hrm. destruct fault; [done|].
      destruct (Legacy.files w !! Id_Path id); [|done]. injection Hrm as <-.
      rewrite lookup_delete_ne; [done|]. intros Heq. by apply Id_Path_inj in Heq.
    + apply Hb.
Qed.

(** X21. Whatever requests arrive and timers fire, the index of the
    earlier server names no missing file; so a plain GET of an indexed
    paste serves it whenever the system opens the file. *)
Theorem index_names_no_missing_file (l : list (LegacyHttp.action))
    (w : Legacy.World) :
  LegacyHttp.index_backed w ->
  let w' := LegacyHttp.acts detect site life l w in
  LegacyHttp.index_backed w'
  /\ forall env id info,
       Legacy.m w' !! id = Some info ->
       LegacyHttp.open_fault env = None ->
       exists data,
         LegacyHttp.handler detect site life env (LegacyHttp.get_request ("/" ++ Id_String id)) w'
         = (LegacyHttp.ServeContent (Legacy.Etag info) (Legacy.ContentType info)
              (Legacy.ModTime info) data, w').
Proof.
  intros Hb. cbv zeta.
  assert (Hb' : LegacyHttp.index_backed (LegacyHttp.acts detect site life l w)).
  { unfold LegacyHttp.acts. revert w Hb.
    induction l as [|a l IH]; intros w Hb; [done|].
    cbn [fold_left]. apply IH. by apply step_index_backed. }
  split; [done|]. intros env id info Hi Hopen.
  destruct (Hb' id info Hi) as [data Hd]. exists data.
  unfold LegacyHttp.get_request. rewrite handleGet_id, Hi.
  cbn [String.eqb negb andb]. unfold os_Open. by rewrite Hopen, Hd.
Qed.

(** X22. A GET is answered from the index alone: an identifier that is
    not indexed is "not found" even when its file is on disk, and a
    request whose validator matches, or is [*], is "not modified"
    without the file being opened. *)
Theorem get_answers_from_index (env : LegacyHttp.Env) (inm : string) (id : Id)
    (w : Legacy.World) :
  (Legacy.m w !! id = None ->
     LegacyHttp.handler detect site life env (LegacyHttp.mkRequest "GET" ("/" ++ Id_String id) inm None None) w
     = (LegacyHttp.HttpError LegacyHttp.pasteNotFound LegacyHttp.StatusNotFound, w))
  /\ (forall info,
     Legacy.m w !! id = Some info ->
     inm = "*" \/ (inm <> EmptyString /\ inm = Legacy.Etag info) ->
     LegacyHttp.handler detect site life env (LegacyHttp.mkRequest "GET" ("/" ++ Id_String id) inm None None) w
     = (LegacyHttp.NotModified, w)).
Proof.
  rewrite handleGet_id. split.
  - by intros ->.
  - intros info -> [->|[Hne ->]].
    + cbn [String.eqb negb andb]. rewrite orb_true_r. reflexivity.
    + apply String.eqb_neq in Hne. by rewrite Hne, String.eqb_refl.
Qed.

End Requests.


Lemma post_then_get_witness :
  exists id,
    "http://localhost:8080/0abc00ff" ++ String (ascii_of_nat 10) EmptyString
    = "http://localhost:8080" ++ "/" ++ Id_String id
      ++ String (ascii_of_nat 10) EmptyString
    /\ LegacyHttp.handler sample_detect "http://localhost:8080" (12 * Hour)
         (LegacyHttp.mkEnv (fun _ => None) None 2000 None 0 None)
         (LegacyHttp.get_request ("/" ++ Id_String id))
         (snd (LegacyHttp.handler sample_detect "http://localhost:8080" (12 * Hour)
                 (LegacyHttp.mkEnv (fun _ => Some sample_id) None 1000 None 1024 None)
                 (LegacyHttp.post_request sample_content)
                 (Legacy.mkWorld ∅ ∅ [] [])))
       = (LegacyHttp.ServeContent
            (Legacy.Etag (Legacy.GenPasteInfo sample_detect id 1000 sample_content))
            (Legacy.ContentType (Legacy.GenPasteInfo sample_detect id 1000 sample_content))
            1000 sample_content,
          snd (LegacyHttp.handler sample_detect "http://localhost:8080" (12 * Hour)
                 (LegacyHttp.mkEnv (fun _ => Some sample_id) None 1000 None 1024 None)
                 (LegacyHttp.post_request sample_content)
                 (Legacy.mkWorld ∅ ∅ [] []))).
Proof.
  apply (post_then_get sample_detect "http://localhost:8080" (12 * Hour)
           (LegacyHttp.mkEnv (fun _ => Some sample_id) None 1000 None 1024 None)
           (LegacyHttp.mkEnv (fun _ => None) None 2000 None 0 None)
           sample_content (Legacy.mkWorld ∅ ∅ [] [])).
  - vm_compute; reflexivity.
  - cbn. lia.
  - reflexivity.
Defined.

Lemma requests_keep_files_witness :
  Legacy.files
    (snd (LegacyHttp.handler sample_detect "http://localhost:8080" (12 * Hour)
            (LegacyHttp.mkEnv (fun _ => Some sample_id) None 1000 None 1024 None)
            (LegacyHttp.post_request [x61]) sample_legacy))
    !! "0a/bc00ff" = Some sample_content.
Proof.
  apply (requests_keep_files sample_detect "http://localhost:8080" (12 * Hour)
           (LegacyHttp.mkEnv (fun _ => Some sample_id) None 1000 None 1024 None)
           (LegacyHttp.post_request [x61]) sample_legacy "0a/bc00ff" sample_content).
  vm_compute; reflexivity.
Defined.

Lemma failed_post_leaves_timer_witness :
  LegacyHttp.handler sample_detect "http://localhost:8080" (12 * Hour)
    (LegacyHttp.mkEnv (fun _ => Some sample_id) None 1000 (Some EACCES) 1024 None)
    (LegacyHttp.post_request sample_content) (Legacy.mkWorld ∅ ∅ [] [])
  = (LegacyHttp.HttpError LegacyHttp.unknownError
       LegacyHttp.StatusInternalServerError,
     Legacy.EndLifeAfter sample_id (12 * Hour) (Legacy.mkWorld ∅ ∅ [] [])).
Proof.
  apply (failed_post_leaves_timer sample_detect "http://localhost:8080" (12 * Hour)
           (LegacyHttp.mkEnv (fun _ => Some sample_id) None 1000 (Some EACCES) 1024 None)
           sample_content (Legacy.mkWorld ∅ ∅ [] []) sample_id EACCES);
    try reflexivity.
  discriminate.
Defined.

Lemma index_names_no_missing_file_witness :
  LegacyHttp.index_backed
    (LegacyHttp.acts sample_detect "http://localhost:8080" (12 * Hour)
       [LegacyHttp.Serve
          (LegacyHttp.mkEnv (fun _ => Some sample_id) None 1000 None 1024 None)
          (LegacyHttp.post_request sample_content);
        LegacyHttp.Fire (Some EACCES) sample_id]
       (Legacy.mkWorld ∅ ∅ [] [])).
Proof.
  apply (index_names_no_missing_file sample_detect "http://localhost:8080" (12 * Hour)).
  intros id info. cbn. rewrite lookup_empty. discriminate.
Defined.


(* --------------------------------------------------------------------- *)
(** ** The tag and the content type of a paste *)
(* --------------------------------------------------------------------- *)

Lemma str_length_app (a b : string) :
  String.length (a ++ b) = (String.length a + String.length b)%nat.
Proof. induction a as [|c a IH]; simpl; [done|]. by rewrite IH. Qed.

Lemma str_app_inv_suffix (a b s t : string) :
  String.length s = String.length t -> a ++ s = b ++ t -> a = b /\ s = t.
Proof.
  revert b. induction a as [|c a IH]; intros [|c' b] Hlen Heq; simpl in Heq.
  - done.
  - apply (f_equal String.length) in Heq. simpl in Heq.
    rewrite str_length_app in Heq. lia.
  - apply (f_equal String.length) in Heq. simpl in Heq.
    rewrite str_length_app in Heq. lia.
  - injection Heq as -> Heq. destruct (IH b Hlen Heq) as [-> ->]. done.
Qed.

(** X24. The tag of a paste tells its identifier and the second it was
    stamped: two pastes have the same tag only if they have the same
    identifier and the same second.  The content type is never
    [application/octet-stream]. *)
Theorem GenPasteInfo_tags (detect : list byte -> string) :
  (forall id id' t t' h h',
      Legacy.Etag (Legacy.GenPasteInfo detect id t h)
      = Legacy.Etag (Legacy.GenPasteInfo detect id' t' h') ->
      id = id' /\ Legacy.Unix t = Legacy.Unix t')
  /\ (forall id t h,
      Legacy.ContentType (Legacy.GenPasteInfo detect id t h)
      <> "application/octet-stream").
Proof.
  split.
  - intros id id' t t' h h'. unfold Legacy.GenPasteInfo. cbn [Legacy.Etag].
    intros Heq. apply str_app_inv_suffix in Heq as [Ht Hid].
    + split.
      * assert (Hhex : Id_String id = Id_String id').
        { assert (Htail : forall (c : ascii) (x y : string),
                    String c x = String c y -> x = y) by (by intros c x y [=]).
          by apply (Htail "-"%char). }
        pose proof (IdFromString_Id_String id) as Hback.
        rewrite Hhex, IdFromString_Id_String in Hback. by injection Hback.
      * by apply (inj pretty).
    + cbn [String.append String.length]. unfold Id_String.
      by rewrite !EncodeToString_length.
  - intros id t h. unfold Legacy.GenPasteInfo. cbn [Legacy.ContentType].
    destruct (String.eqb_spec (detect h) "application/octet-stream"); [|done].
    intros [=].
Qed.

Lemma GenPasteInfo_tags_witness :
  sample_id = sample_id /\ Legacy.Unix 1000000000 = Legacy.Unix 1999999999.
Proof.
  apply (proj1 (GenPasteInfo_tags sample_detect) sample_id sample_id
           1000000000 1999999999 [] []).
  vm_compute; reflexivity.
Defined.

(* --------------------------------------------------------------------- *)
(** ** The first server: names and paths *)
(* --------------------------------------------------------------------- *)

Lemma char_at_alnum (z : Z) :
  Oldest.is_alnum (Oldest.char_at (z mod 36)) = true
  /\ lower_char (Oldest.char_at (z mod 36)) = Oldest.char_at (z mod 36).
Proof.
  assert (H36 : 0 < 36) by lia.
  pose proof (Z.mod_pos_bound z 36 H36) as Hb.
  rewrite <- (Z2Nat.id (z mod 36)) by lia.
  assert (Hk : (Z.to_nat (z mod 36) < 36)%nat) by lia. revert Hk.
  generalize (Z.to_nat (z mod 36)) as k. intros k Hk.
  do 36 (destruct k as [|k]; [split; reflexivity|]). lia.
Qed.

Lemma name_of_draw_valid (n : nat) (r : Z) :
  String.length (name_of_draw n r) = n
  /\ all_chars Oldest.is_alnum (name_of_draw n r) = true
  /\ ToLower (name_of_draw n r) = name_of_draw n r.
Proof.
  revert r. induction n as [|n IH]; intros r; [done|].
  destruct (IH (Z.shiftr r 8)) as (Hlen & Hall & Hlow).
  destruct (char_at_alnum (Z.land r 255)) as [Hc Hl].
  cbn [name_of_draw String.length all_chars ToLower].
  by rewrite Hlen, Hall, Hlow, Hc, Hl.
Qed.

(** X25. [randomId] returns after one [rand.Int63()], whatever it draws:
    the eight low bytes of the draw, each taken modulo 36 into the
    alphabet.  [validId] accepts the name and it is its own lower case,
    so the address handed to the client is the one a GET looks up. *)
Theorem randomId_is_valid (int63 : nat -> Z) :
  Oldest.randomId int63 = Some (name_of_draw 8 (int63 0%nat))
  /\ Oldest.validId (name_of_draw 8 (int63 0%nat)) = true
  /\ ToLower (name_of_draw 8 (int63 0%nat)) = name_of_draw 8 (int63 0%nat).
Proof.
  split; [reflexivity|].
  destruct (name_of_draw_valid 8 (int63 0%nat)) as (Hlen & Hall & Hlow).
  split; [|done]. unfold Oldest.validId. by rewrite Hlen, Hall.
Qed.

Lemma is_alnum_plain (c : ascii) :
  Oldest.is_alnum c = true -> plain_char c = true.
Proof.
  intros H.
  destruct c as [[|] [|] [|] [|] [|] [|] [|] [|]]; vm_compute in H;
    first [discriminate H | reflexivity].
Qed.

Lemma all_alnum_plain (s : string) :
  all_chars Oldest.is_alnum s = true -> plain s = true.
Proof.
  induction s as [|c s IH]; [done|]. cbn [all_chars plain].
  intros [Hc Hs]%andb_prop. by rewrite (is_alnum_plain c Hc), IH.
Qed.

Lemma Join_plain3 (c1 c2 c3 : ascii) (a b c : string) :
  plain (String c1 a) = true -> plain (String c2 b) = true ->
  plain (String c3 c) = true ->
  Join [String c1 a; String c2 b; String c3 c]
  = String c1 a ++ "/" ++ String c2 b ++ "/" ++ String c3 c
  /\ Split (String c1 a ++ "/" ++ String c2 b ++ "/" ++ String c3 c) "/"
     = [String c1 a; String c2 b; String c3 c].
Proof.
  intros Ha Hb Hc.
  assert (Hsep : Ascii.eqb c1 "/" = false).
  { simpl in Ha. apply andb_prop in Ha as [H _]. by apply plain_char_sep. }
  destruct (plain_element _ _ Ha) as [Ha1 Ha2].
  destruct (plain_element _ _ Hb) as [Hb1 Hb2].
  destruct (plain_element _ _ Hc) as [Hc1 Hc2].
  assert (Hsplit : Split (String c1 a ++ "/" ++ String c2 b ++ "/" ++ String c3 c) "/"
            = [String c1 a; String c2 b; String c3 c]).
  { change (String c1 a ++ "/" ++ String c2 b ++ "/" ++ String c3 c)
      with (String c1 a ++ String "/" (String c2 b ++ String "/" (String c3 c))).
    by rewrite (Split_plain_app _ _ Ha), (Split_plain_app _ _ Hb), (Split_plain _ Hc). }
  split; [|done].
  assert (Hroot : is_rooted (String c1 a ++ "/" ++ String c2 b ++ "/" ++ String c3 c)
                  = false) by (simpl; by rewrite Hsep).
  cbn [Join String.eqb join_slash]. unfold Clean. cbv zeta.
  rewrite Hroot, Hsplit.
  cbn [clean_elems]. rewrite Ha1, Ha2. cbn [clean_elems].
  rewrite Hb1, Hb2. cbn [clean_elems]. rewrite Hc1, Hc2.
  cbn [clean_elems rev app join_slash]. reflexivity.
Qed.

(** X26. [pathId] puts a name that [validId] accepts three levels deep:
    two characters, two characters, the other four.  The three parts of
    the path spell the name again, so two valid names never share a
    path.  A name shorter than four characters is out of range. *)
Theorem pathId_three_levels :
  (forall id,
      Oldest.validId id = true ->
      exists a b c,
        Oldest.pathId id = Some (a ++ "/" ++ b ++ "/" ++ c)
        /\ Split (a ++ "/" ++ b ++ "/" ++ c) "/" = [a; b; c]
        /\ a ++ b ++ c = id
        /\ String.length a = 2%nat /\ String.length b = 2%nat
        /\ String.length c = 4%nat)
  /\ (forall id id',
      Oldest.validId id = true -> Oldest.validId id' = true ->
      Oldest.pathId id = Oldest.pathId id' -> id = id')
  /\ (forall id, (String.length id < 4)%nat -> Oldest.pathId id = None).
Proof.
  assert (Hshape : forall id,
    Oldest.validId id = true ->
    exists a b c,
      Oldest.pathId id = Some (a ++ "/" ++ b ++ "/" ++ c)
      /\ Split (a ++ "/" ++ b ++ "/" ++ c) "/" = [a; b; c]
      /\ a ++ b ++ c = id
      /\ String.length a = 2%nat /\ String.length b = 2%nat
      /\ String.length c = 4%nat).
  { intros id [Hlen Hall]%andb_prop.
    apply Nat.eqb_eq in Hlen. apply all_alnum_plain in Hall.
    destruct id as [|c0 [|c1 [|c2 [|c3 [|c4 [|c5 [|c6 [|c7 [|c8 rest]]]]]]]]];
      try discriminate Hlen.
    cbn [plain] in Hall.
    repeat (apply andb_prop in Hall as [? Hall]).
    exists (String c0 (String c1 EmptyString)),
      (String c2 (String c3 EmptyString)),
      (String c4 (String c5 (String c6 (String c7 EmptyString)))).
    destruct (Join_plain3 c0 c2 c4 (String c1 EmptyString) (String c3 EmptyString)
                (String c5 (String c6 (String c7 EmptyString)))) as [HJ HS];
      try (cbn [plain];
           repeat match goal with Hp : plain_char _ = true |- _ => rewrite Hp; clear Hp end;
           reflexivity).
    split; [|split; [exact HS|done]].
    unfold Oldest.pathId. cbn [String.length Nat.ltb Nat.leb str_take str_drop].
    by rewrite HJ. }
  split; [exact Hshape|]. split.
  - intros id id' Hv Hv' Heq.
    destruct (Hshape id Hv) as (a & b & c & Hp & Hs & <- & _).
    destruct (Hshape id' Hv') as (a' & b' & c' & Hp' & Hs' & <- & _).
    assert (HL : [a; b; c] = [a'; b'; c']) by congruence.
    by injection HL as -> -> ->.
  - intros id Hlen. unfold Oldest.pathId.
    by destruct (Nat.ltb_spec (String.length id) 4); [|lia].
Qed.

Lemma pathId_three_levels_witness :
  exists a b c,
    Oldest.pathId "ab12cd34" = Some (a ++ "/" ++ b ++ "/" ++ c)
    /\ Split (a ++ "/" ++ b ++ "/" ++ c) "/" = [a; b; c]
    /\ a ++ b ++ c = "ab12cd34"
    /\ String.length a = 2%nat /\ String.length b = 2%nat
    /\ String.length c = 4%nat.
Proof. apply (proj1 pathId_three_levels "ab12cd34"). reflexivity. Defined.

Lemma get_answers_from_index_witness :
  LegacyHttp.handler sample_detect "http://localhost:8080" (12 * Hour)
    (LegacyHttp.mkEnv (fun _ => None) None 2000 None 0 None)
    (LegacyHttp.mkRequest "GET" ("/" ++ Id_String sample_id) EmptyString None None)
    sample_legacy
  = (LegacyHttp.HttpError LegacyHttp.pasteNotFound LegacyHttp.StatusNotFound,
     sample_legacy).
Proof.
  apply (proj1 (get_answers_from_index sample_detect "http://localhost:8080"
                  (12 * Hour) (LegacyHttp.mkEnv (fun _ => None) None 2000 None 0 None)
                  EmptyString sample_id sample_legacy)).
  reflexivity.
Defined.
